(** * msocks: the SOCKS5 front end of the client session, its tunnel
      handshake and its forwarding pumps

    A shallow embedding of
      - [src/session/client_session.cpp] (class [client_session]),
      - [src/utility/local_socks5.cpp]   ([detail::do_local_socks5]),
      - [src/utility/socket_pair.hpp]    ([pair]),
    with the Boost.Asio sockets replaced by scripted sockets and the
    Crypto++ stream cipher by an abstract keystream. *)

From Stdlib Require Import Bool Arith NArith Lia.
From Stdlib Require Import Strings.Byte Strings.String Numbers.DecimalString.
From Stdlib Require Import Lists.List.
Import ListNotations.

Set Implicit Arguments.

(** ** Bytes and fixed-width integers *)

Definition byte_of_N (n : N) : byte :=
  match Byte.of_N (n mod 256) with
  | Some b => b
  | None => Byte.x00
  end.

Definition lit (s : string) : list byte := list_byte_of_string s.

(** Bitwise exclusive or of two octets. *)
Definition xor_byte (a b : byte) : byte :=
  let '(a0, (a1, (a2, (a3, (a4, (a5, (a6, a7))))))) := Byte.to_bits a in
  let '(b0, (b1, (b2, (b3, (b4, (b5, (b6, b7))))))) := Byte.to_bits b in
  Byte.of_bits
    (xorb a0 b0, (xorb a1 b1, (xorb a2 b2, (xorb a3 b3,
    (xorb a4 b4, (xorb a5 b5, (xorb a6 b6, xorb a7 b7))))))).

(** Byte order of the machine the proxy runs on.  The code reads and
    writes integers through their object representation
    ([buffer(&x, sizeof(x))], [buffer_copy] into packed structs), so the
    byte order of the host is part of its meaning. *)
Inductive endian : Set := LittleEndian | BigEndian.

(** The value of a [uint16_t] / [uint32_t] whose object representation is
    the given bytes (lowest address first). *)
Definition load_le (bs : list byte) : N :=
  fold_right (fun b acc => Byte.to_N b + 256 * acc)%N 0%N bs.

Definition load_native (e : endian) (bs : list byte) : N :=
  match e with
  | LittleEndian => load_le bs
  | BigEndian => load_le (rev bs)
  end.

(** Object representation of a [uint16_t]: what [buffer(&v, sizeof(v))]
    exposes. *)
Definition store_native16 (e : endian) (v : N) : list byte :=
  match e with
  | LittleEndian => [byte_of_N v; byte_of_N (v / 256)]
  | BigEndian => [byte_of_N (v / 256); byte_of_N v]
  end.

(** [boost::endian::endian_reverse] at 16 and 32 bits. *)
Definition endian_reverse16 (v : N) : N :=
  ((v mod 256) * 256 + (v / 256) mod 256)%N.

Definition endian_reverse32 (v : N) : N :=
  ((v mod 256) * 16777216 + ((v / 256) mod 256) * 65536
   + ((v / 65536) mod 256) * 256 + (v / 16777216) mod 256)%N.

(** [boost::endian::big_to_native]: a byte swap on little-endian hosts,
    the identity on big-endian ones. *)
Definition big_to_native16 (e : endian) (v : N) : N :=
  match e with LittleEndian => endian_reverse16 v | BigEndian => v end.

Definition big_to_native32 (e : endian) (v : N) : N :=
  match e with LittleEndian => endian_reverse32 v | BigEndian => v end.

(** [uint16_t x = e] for a [size_t] expression: reduction modulo 2^16. *)
Definition to_uint16 (n : nat) : N := (N.of_nat n mod 65536)%N.

(** [std::to_string] on an unsigned integer. *)
Definition to_string (n : N) : list byte :=
  lit (NilEmpty.string_of_uint (N.to_uint n)).

(** [ip::address_v4::to_string] of an address given as a host-order
    integer: dotted decimal, most significant octet first. *)
Definition address_v4_to_string (a : N) : list byte :=
  to_string ((a / 16777216) mod 256) ++ lit "." ++
  to_string ((a / 65536) mod 256) ++ lit "." ++
  to_string ((a / 256) mod 256) ++ lit "." ++
  to_string (a mod 256).

(** ** What the build fixes outside this repository *)

(** The stream cipher ([encrypt] and [decrypt] are Crypto++ objects from
    [cryptopp/salsa.h]) and [ip::address_v6::to_string] are library
    code.  They are taken as parameters: the cipher as the keystream it
    generates from a key and an IV, octet by octet. *)
Record Platform : Type := {
  host_endian : endian;
  keystream : list byte -> list byte -> nat -> byte;
  address_v6_to_string : list byte -> list byte
}.

(** Modelled from the spec: [utility/socks_constants.hpp] is missing; the
    values are those of section 6 (version 5, no-auth method 0x00,
    CONNECT = 1, address types 1 = IPv4, 3 = domain, 4 = IPv6). *)
Module constant.
Definition SOCKS5_VERSION : byte := Byte.x05.
Definition AUTH_NO_AUTH : byte := Byte.x00.
Definition CONN_TCP : byte := Byte.x01.
Definition CONN_BND : byte := Byte.x02.
Definition CONN_UDP : byte := Byte.x03.
Definition ADDR_IPV4 : byte := Byte.x01.
Definition ADDR_DOMAIN : byte := Byte.x03.
Definition ADDR_IPV6 : byte := Byte.x04.
End constant.

(** ** The stream cipher object *)

(** A cipher object: the key and IV it was keyed with and how many
    keystream octets it has consumed since. *)
Record cipher : Type := mk_cipher {
  ckey : list byte;
  civ : list byte;
  cpos : nat
}.

Definition unkeyed : cipher := mk_cipher [] [] 0.

(** [c.SetKeyWithIV(key, key.size(), iv, iv.size())]. *)
Definition SetKeyWithIV (key iv : list byte) : cipher := mk_cipher key iv 0.

(** The data xored with the keystream [ks] from position [pos] on. *)
Fixpoint xor_stream (ks : nat -> byte) (pos : nat) (data : list byte)
  : list byte :=
  match data with
  | [] => []
  | b :: rest => xor_byte b (ks pos) :: xor_stream ks (S pos) rest
  end.

(** [c.ProcessString(data, n)]: transforms the [n] octets in place and
    leaves the cipher [n] positions further. *)
Definition ProcessString (P : Platform) (c : cipher) (data : list byte)
  : cipher * list byte :=
  (mk_cipher (ckey c) (civ c) (cpos c + length data),
   xor_stream (keystream P (ckey c) (civ c)) (cpos c) data).

(** ** Scripted sockets *)

Inductive error_code : Set :=
| eof
| connection_reset
| connection_refused
| broken_pipe
| bad_descriptor
| not_connected
| cmd_not_supported
| address_not_supported.

(** A TCP socket together with the behaviour of its peer: the segments
    the peer will deliver, the error a read meets once they are used up,
    and how many octets the peer accepts before writes start to fail. *)
Record socket : Type := mk_socket {
  is_open : bool;
  inbox : list (list byte);
  in_end : error_code;
  out_room : option nat;
  out_err : error_code;
  sent : list byte;
  wcalls : list (list (list byte))
}.

Definition set_open (o : bool) (s : socket) : socket :=
  mk_socket o (inbox s) (in_end s) (out_room s) (out_err s) (sent s)
            (wcalls s).

Definition set_inbox (i : list (list byte)) (s : socket) : socket :=
  mk_socket (is_open s) i (in_end s) (out_room s) (out_err s) (sent s)
            (wcalls s).

(** [s.close()]: closing a closed socket changes nothing. *)
Definition close (s : socket) : socket := set_open false s.

(** Result of an operation that reports through an [error_code]. *)
Inductive result (A : Type) : Type :=
| Ok (a : A)
| Err (e : error_code).
Arguments Ok {A} a.
Arguments Err {A} e.

(** [s.async_read_some(buffer of n octets)]: at most [n] octets of the
    next segment that has any; what does not fit stays queued. *)
Fixpoint next_segment (n : nat) (segs : list (list byte))
  : option (list byte * list (list byte)) :=
  match segs with
  | [] => None
  | [] :: rest => next_segment n rest
  | c :: rest =>
      if length c <=? n then Some (c, rest)
      else Some (firstn n c, skipn n c :: rest)
  end.

Definition async_read_some (n : nat) (s : socket)
  : socket * result (list byte) :=
  if negb (is_open s) then (s, Err bad_descriptor)
  else match n with
       | 0 => (s, Ok [])
       | _ =>
           match next_segment n (inbox s) with
           | Some (data, rest) => (set_inbox rest s, Ok data)
           | None => (set_inbox [] s, Err (in_end s))
           end
       end.

(** The loop of the composed [async_read]: [read_some] is repeated until
    [want] octets have arrived or the stream reports an error.  The
    result is the octets received, the segments left, and whether the
    count was reached. *)
Fixpoint read_until (want : nat) (segs : list (list byte))
  : list byte * list (list byte) * bool :=
  match want with
  | 0 => ([], segs, true)
  | _ =>
      match segs with
      | [] => ([], [], false)
      | c :: rest =>
          if length c <=? want then
            let '(d, rest', ok) := read_until (want - length c) rest in
            (c ++ d, rest', ok)
          else (firstn want c, skipn want c :: rest, true)
      end
  end.

(** The composed [async_read(s, buffer, transfer_exactly(want))]: hands
    back the octets received, and the error if the count was not
    reached. *)
Definition async_read (want : nat) (s : socket)
  : socket * list byte * option error_code :=
  if negb (is_open s) then (s, [], Some bad_descriptor)
  else
    let '(d, rest, ok) := read_until want (inbox s) in
    (set_inbox rest s, d, if ok then None else Some (in_end s)).

(** The composed [async_read(s, dynamic_buffer(buf), yield)], which has
    no completion condition: [read_some] is repeated into the growing
    vector until the stream reports an error.  Nothing makes it return
    normally: the limit of the dynamic buffer is the largest [size_t],
    which no vector reaches.  (A stream long enough to exhaust memory
    would end the coroutine with [length_error] or [bad_alloc] instead;
    the scripted streams are taken to fit.)  The result is the octets
    taken into the vector and the error thrown. *)
Definition async_read_to_error (s : socket)
  : socket * list byte * error_code :=
  if negb (is_open s) then (s, [], bad_descriptor)
  else (set_inbox [] s, concat (inbox s), in_end s).

(** A socket as a failed [async_connect] leaves it: [async_connect]
    opens a socket that is not open before it connects and does not
    close it when the connect fails.  Such a socket is open and has no
    peer: it delivers nothing and accepts nothing.  A socket that was
    open already is left as it was. *)
Definition opened_unconnected (s : socket) : socket :=
  if is_open s then s
  else mk_socket true [] not_connected (Some 0) not_connected
                 (sent s) (wcalls s).

(** The composed [async_write(s, buffers, transfer_all())]: one call
    with a buffer sequence; either every octet is accepted, or the
    accepted prefix is on the wire and the error is reported. *)
Definition async_write (bufs : list (list byte)) (s : socket)
  : socket * option error_code :=
  let data := concat bufs in
  if negb (is_open s) then (s, Some bad_descriptor)
  else
    match out_room s with
    | None =>
        (mk_socket true (inbox s) (in_end s) None (out_err s)
                   (sent s ++ data) (wcalls s ++ [bufs]), None)
    | Some k =>
        if length data <=? k then
          (mk_socket true (inbox s) (in_end s) (Some (k - length data))
                     (out_err s) (sent s ++ data) (wcalls s ++ [bufs]),
           None)
        else
          (mk_socket true (inbox s) (in_end s) (Some 0) (out_err s)
                     (sent s ++ firstn k data) (wcalls s ++ [bufs]),
           Some (out_err s))
    end.

(** ** The session object *)

Inductive pump_id : Set := local_to_remote | remote_to_local.

(** The members of [client_session] ([local], [remote], [key], [iv],
    [encrypt], [decrypt]), then what the session meets in its
    environment (the random pool, the outcome of the connect), then what
    it has done so far (connects attempted, coroutines spawned). *)
Record client_session : Type := mk_session {
  local : socket;
  remote : socket;
  key : list byte;
  iv : list byte;
  encrypt : cipher;
  decrypt : cipher;
  entropy : nat -> byte;
  connect_outcome : option error_code;
  connects : nat;
  spawned : list pump_id
}.

Definition with_local (l : socket) (s : client_session) : client_session :=
  mk_session l (remote s) (key s) (iv s) (encrypt s) (decrypt s)
             (entropy s) (connect_outcome s) (connects s) (spawned s).

Definition with_remote (r : socket) (s : client_session) : client_session :=
  mk_session (local s) r (key s) (iv s) (encrypt s) (decrypt s)
             (entropy s) (connect_outcome s) (connects s) (spawned s).

Definition with_iv (v : list byte) (s : client_session) : client_session :=
  mk_session (local s) (remote s) (key s) v (encrypt s) (decrypt s)
             (entropy s) (connect_outcome s) (connects s) (spawned s).

Definition with_encrypt (c : cipher) (s : client_session) : client_session :=
  mk_session (local s) (remote s) (key s) (iv s) c (decrypt s)
             (entropy s) (connect_outcome s) (connects s) (spawned s).

Definition with_decrypt (c : cipher) (s : client_session) : client_session :=
  mk_session (local s) (remote s) (key s) (iv s) (encrypt s) c
             (entropy s) (connect_outcome s) (connects s) (spawned s).

Definition with_connects (n : nat) (s : client_session) : client_session :=
  mk_session (local s) (remote s) (key s) (iv s) (encrypt s) (decrypt s)
             (entropy s) (connect_outcome s) n (spawned s).

Definition with_spawned (l : list pump_id) (s : client_session)
  : client_session :=
  mk_session (local s) (remote s) (key s) (iv s) (encrypt s) (decrypt s)
             (entropy s) (connect_outcome s) (connects s) l.

(** The constructor: [local] is the accepted socket, [remote] a socket
    that is not open yet, [iv(8)] eight zero octets.  [peer] scripts what
    the relay will do once connected. *)
Definition new_session (local_ peer : socket) (key_ : list byte)
  (rnd : nat -> byte) (conn : option error_code) : client_session :=
  mk_session local_
             (mk_socket false (inbox peer) (in_end peer) (out_room peer)
                        (out_err peer) [] [])
             key_ (repeat Byte.x00 8) unkeyed unkeyed rnd conn 0 [].

(** ** Coroutine bodies: state and [system_error] *)

(** Code run inside a coroutine: it updates the state it works on and
    either returns or throws a [system_error] carrying an error code. *)
Definition SE (S A : Type) : Type := S -> S * result A.

Definition ret {S A : Type} (a : A) : SE S A := fun s => (s, Ok a).

Definition bind {S A B : Type} (m : SE S A) (k : A -> SE S B) : SE S B :=
  fun s =>
    match m s with
    | (s', Ok a) => k a s'
    | (s', Err e) => (s', Err e)
    end.

(** A member function of [client_session]. *)
Definition M (A : Type) : Type := SE client_session A.

Declare Scope session_scope.
Delimit Scope session_scope with session.
Notation "x <- m ;; k" := (bind m (fun x => k))
  (at level 61, m at next level, right associativity) : session_scope.
Notation "m ;;; k" := (bind m (fun _ => k))
  (at level 61, right associativity) : session_scope.
Open Scope session_scope.

(** [async_read(local, ..., transfer_exactly(n), yield)]: with a bare
    [yield] an error is thrown. *)
Definition read_local (n : nat) : M (list byte) :=
  fun s =>
    let '(l, d, e) := async_read n (local s) in
    (with_local l s, match e with None => Ok d | Some ec => Err ec end).

Definition write_local (bufs : list (list byte)) : M unit :=
  fun s =>
    let '(l, e) := async_write bufs (local s) in
    (with_local l s, match e with None => Ok tt | Some ec => Err ec end).

Definition write_remote (bufs : list (list byte)) : M unit :=
  fun s =>
    let '(r, e) := async_write bufs (remote s) in
    (with_remote r s, match e with None => Ok tt | Some ec => Err ec end).

(** [async_read(local, dynamic_buffer(buf), yield)] and the same on
    [remote]: with a bare [yield] the error is thrown, and [buf], a local
    of the coroutine, goes with it. *)
Definition read_local_to_error : M (list byte) :=
  fun s =>
    let '(l, _, ec) := async_read_to_error (local s) in
    (with_local l s, Err ec).

Definition read_remote_to_error : M (list byte) :=
  fun s =>
    let '(r, _, ec) := async_read_to_error (remote s) in
    (with_remote r s, Err ec).

(** [remote.async_connect(addr, yield)]. *)
Definition connect_remote : M unit :=
  fun s =>
    let s1 := with_connects (S (connects s)) s in
    match connect_outcome s with
    | None => (with_remote (set_open true (remote s)) s1, Ok tt)
    | Some ec => (with_remote (opened_unconnected (remote s)) s1, Err ec)
    end.

(** [encrypt.ProcessString(data, n)] and [decrypt.ProcessString(data, n)]
    on the session's cipher members. *)
Definition encrypt_in_place (P : Platform) (data : list byte)
  : M (list byte) :=
  fun s =>
    let '(c, out) := ProcessString P (encrypt s) data in
    (with_encrypt c s, Ok out).

Definition decrypt_in_place (P : Platform) (data : list byte)
  : M (list byte) :=
  fun s =>
    let '(c, out) := ProcessString P (decrypt s) data in
    (with_decrypt c s, Ok out).

(** ** [client_session]: the SOCKS5 front end *)

Section ClientSession.

Variable P : Platform.

(** [client_session::do_socks5_auth].  The two-octet header is read into
    the packed struct [auth_method] (fields [version], [n_method]); the
    methods follow in [methods_buf]. *)
Definition do_socks5_auth : M bool :=
  auth_method <- read_local 2 ;;
  let n_method := nth 1 auth_method Byte.x00 in
  methods_buf <- read_local (Byte.to_nat n_method) ;;
  let find_auth := existsb (Byte.eqb constant.AUTH_NO_AUTH) methods_buf in
  if negb find_auth then ret false
  else
    write_local [[constant.SOCKS5_VERSION; constant.AUTH_NO_AUTH]] ;;;
    ret true.

(** The fixed reply of [do_get_proxy_addr]: the packed struct
    [{5, 0, 0, ADDR_IPV4, bnd_addr = 0, bnd_port = 0}]. *)
Definition reply : list byte :=
  [constant.SOCKS5_VERSION; Byte.x00; Byte.x00; constant.ADDR_IPV4;
   Byte.x00; Byte.x00; Byte.x00; Byte.x00; Byte.x00; Byte.x00].

(** The IPv4 branch: [ap_buf] is copied over the packed struct
    [{uint32_t addr; uint16_t port}] and both fields go through
    [big_to_native]. *)
Definition addr_port_v4 (ap_buf : list byte) : list byte :=
  let addr := load_native (host_endian P) (firstn 4 ap_buf) in
  let port := load_native (host_endian P) (firstn 2 (skipn 4 ap_buf)) in
  address_v4_to_string (big_to_native32 (host_endian P) addr)
  ++ lit ":" ++ to_string (big_to_native16 (host_endian P) port).

(** The IPv6 branch: the sixteen address octets go through
    [std::reverse] before [make_address_v6]. *)
Definition addr_port_v6 (ap_buf : list byte) : list byte :=
  let addr := firstn 16 ap_buf in
  let port := load_native (host_endian P) (firstn 2 (skipn 16 ap_buf)) in
  address_v6_to_string P (rev addr)
  ++ lit ":" ++ to_string (big_to_native16 (host_endian P) port).

(** The domain branch: the name is copied as it is, the two octets after
    it are copied over a [uint16_t] and swapped in place. *)
Definition addr_port_domain (domain_length : nat) (ap_buf : list byte)
  : list byte :=
  let port := load_native (host_endian P) (skipn domain_length ap_buf) in
  firstn domain_length ap_buf
  ++ lit ":" ++ to_string (big_to_native16 (host_endian P) port).

(** [client_session::do_get_proxy_addr]. *)
Definition do_get_proxy_addr : M (bool * list byte) :=
  request <- read_local 4 ;;
  let version := nth 0 request Byte.x00 in
  let cmd := nth 1 request Byte.x00 in
  let addr_type := nth 3 request Byte.x00 in
  if negb (Byte.eqb version constant.SOCKS5_VERSION) then ret (false, [])
  else if negb (Byte.eqb cmd constant.CONN_TCP) then ret (false, [])
  else
    a_p <-
      (if Byte.eqb addr_type constant.ADDR_IPV4 then
         ap_buf <- read_local (32 / 8 + 2) ;;
         ret (Some (addr_port_v4 ap_buf))
       else if Byte.eqb addr_type constant.ADDR_IPV6 then
         ap_buf <- read_local (128 / 8 + 2) ;;
         ret (Some (addr_port_v6 ap_buf))
       else if Byte.eqb addr_type constant.ADDR_DOMAIN then
         len <- read_local 1 ;;
         let domain_length := Byte.to_nat (nth 0 len Byte.x00) in
         ap_buf <- read_local (domain_length + 2) ;;
         ret (Some (addr_port_domain domain_length ap_buf))
       else ret None) ;;
    match a_p with
    | None => ret (false, [])
    | Some a_p => write_local [reply] ;;; ret (true, a_p)
    end.

(** [client_session::do_local_socks5]. *)
Definition do_local_socks5 : M (bool * list byte) :=
  ok <- do_socks5_auth ;;
  if ok then do_get_proxy_addr else ret (false, []).

(** ** The tunnel handshake *)

(** [rng.GenerateBlock(iv.data(), iv.size())]. *)
Definition generate_iv : M unit :=
  fun s => (with_iv (map (entropy s) (seq 0 (length (iv s)))) s, Ok tt).

(** Both cipher members are keyed with the session key and the new IV. *)
Definition set_key_with_iv : M unit :=
  fun s =>
    (with_decrypt (SetKeyWithIV (key s) (iv s))
       (with_encrypt (SetKeyWithIV (key s) (iv s)) s), Ok tt).

(** [client_session::send_handshake]: [size] is a [uint16_t] passed to
    the write as [buffer(&size, sizeof(size))]. *)
Definition send_handshake (addr_port : list byte) : M unit :=
  generate_iv ;;;
  set_key_with_iv ;;;
  addr_port' <- encrypt_in_place P addr_port ;;
  (fun s =>
     let size := to_uint16 (length (iv s) + length addr_port') in
     let sequence :=
       [store_native16 (host_endian P) size; iv s; addr_port'] in
     write_remote sequence s).

(** ** The forwarding coroutines *)

(** One round of the loop of [do_forward_local_to_remote], as written:
    the read into the dynamic buffer over [buf], [ProcessString] on what
    was read, the write of [buf].  The read has no completion condition,
    so it is left only by the error it throws, and the two steps after
    it are never reached. *)
Definition forward_local_to_remote_round : M unit :=
  buf <- read_local_to_error ;;
  buf' <- encrypt_in_place P buf ;;
  write_remote [buf'].

Definition forward_remote_to_local_round : M unit :=
  buf <- read_remote_to_error ;;
  buf' <- decrypt_in_place P buf ;;
  write_local [buf'].

(** [while (true)] around a round: left only by a [system_error]. *)
Fixpoint forever (fuel : nat) (round : M unit) (s : client_session)
  : option (client_session * error_code) :=
  match fuel with
  | 0 => None
  | S fuel' =>
      match round s with
      | (s', Ok _) => forever fuel' round s'
      | (s', Err e) => Some (s', e)
      end
  end.

(** The handler of both coroutines: [local.close(); remote.close();]. *)
Definition close_both (s : client_session) : client_session :=
  with_remote (close (remote s)) (with_local (close (local s)) s).

(** [client_session::do_forward_local_to_remote]; returns [void]. *)
Definition do_forward_local_to_remote (fuel : nat) (s : client_session)
  : option client_session :=
  match forever fuel forward_local_to_remote_round s with
  | Some (s', _) => Some (close_both s')
  | None => None
  end.

(** [client_session::do_forward_remote_to_local]; returns [void]. *)
Definition do_forward_remote_to_local (fuel : nat) (s : client_session)
  : option client_session :=
  match forever fuel forward_remote_to_local_round s with
  | Some (s', _) => Some (close_both s')
  | None => None
  end.

(** ** [client_session::start] *)

(** The [try] block: [false] stands for the early [return]. *)
Definition start_try : M bool :=
  r <- do_local_socks5 ;;
  let '(success, addr_port) := r in
  if negb success then ret false
  else
    connect_remote ;;;
    send_handshake addr_port ;;;
    ret true.

Definition start (s : client_session) : client_session :=
  match start_try s with
  | (s', Ok true) =>
      with_spawned (spawned s' ++ [local_to_remote; remote_to_local]) s'
  | (s', Ok false) => s'
  | (s', Err _) => s'
  end.

End ClientSession.

(** ** The stand-alone utilities *)

Module utility.

(** State of [detail::do_local_socks5]: the socket and the [result]
    vector under construction. *)
Definition U (A : Type) : Type := SE (socket * list byte) A.

Definition read (n : nat) : U (list byte) :=
  fun st =>
    let '(l, d, e) := async_read n (fst st) in
    ((l, snd st), match e with None => Ok d | Some ec => Err ec end).

Definition write (bufs : list (list byte)) : U unit :=
  fun st =>
    let '(l, e) := async_write bufs (fst st) in
    ((l, snd st), match e with None => Ok tt | Some ec => Err ec end).

Definition push_back (bs : list byte) : U unit :=
  fun st => ((fst st, snd st ++ bs), Ok tt).

Definition throw {A : Type} (ec : error_code) : U A :=
  fun st => (st, Err ec).

(** Size of [std::array<uint8_t, 256 + 2> temp]; [buffer(temp, n)] never
    exceeds it. *)
Definition temp_size : nat := 256 + 2.

(** The [try] block of [detail::do_local_socks5]. *)
Definition do_local_socks5_try : U unit :=
  auth_method <- read 2 ;;
  let n_method := Byte.to_nat (nth 1 auth_method Byte.x00) in
  read (Nat.min n_method temp_size) ;;;
  write [[constant.SOCKS5_VERSION; constant.AUTH_NO_AUTH]] ;;;
  request <- read 4 ;;
  let cmd := nth 1 request Byte.x00 in
  let addr_type := nth 3 request Byte.x00 in
  if negb (Byte.eqb cmd constant.CONN_TCP) then throw cmd_not_supported
  else
    push_back [addr_type] ;;;
    (if Byte.eqb addr_type constant.ADDR_IPV4 then
       temp <- read (Nat.min (32 / 8 + 2) temp_size) ;;
       push_back (firstn (32 / 8 + 2) temp)
     else if Byte.eqb addr_type constant.ADDR_IPV6 then
       temp <- read (Nat.min (128 / 8 + 2) temp_size) ;;
       push_back (firstn (128 / 8 + 2) temp)
     else if Byte.eqb addr_type constant.ADDR_DOMAIN then
       len <- read 1 ;;
       let domain_length := Byte.to_nat (nth 0 len Byte.x00) in
       push_back len ;;;
       temp <- read (Nat.min (domain_length + 2) temp_size) ;;
       push_back (firstn (domain_length + 2) temp)
     else throw address_not_supported) ;;;
    write [reply].

(** [detail::do_local_socks5]: what is handed to the completion handler,
    the error code (if any) and the [result] vector, and the socket
    afterwards. *)
Definition do_local_socks5 (local_ : socket)
  : socket * option error_code * list byte :=
  match do_local_socks5_try (local_, []) with
  | ((l, res), Ok _) => (l, None, res)
  | ((l, res), Err ec) => (l, Some ec, res)
  end.

(** [transform(buffer(buf, n))] works in place on the first [n] octets of
    [buf]: whatever it computes, the region keeps its size. *)
Definition in_place (n : nat) (out buf : list byte) : list byte :=
  firstn n out ++ skipn (length (firstn n out)) buf.

(** What a run of [pair] leaves behind. *)
Record pair_state (T : Type) : Type := mk_pair_state {
  tstate : T;
  src : socket;
  dst : socket;
  buf : list byte
}.

(** [pair(src, dst, yield, buf, transform)] of [socket_pair.hpp]: the
    loop is left through [goto out] with the error code, which is the
    return value. *)
Fixpoint pair (T : Type) (transform : T -> list byte -> T * list byte)
  (fuel : nat) (st : pair_state T) : option (error_code * pair_state T) :=
  match fuel with
  | 0 => None
  | S fuel' =>
      match async_read_some (length (buf st)) (src st) with
      | (src', Err ec) =>
          Some (ec, mk_pair_state (tstate st) src' (dst st) (buf st))
      | (src', Ok data) =>
          let n_read := length data in
          let buf1 := data ++ skipn n_read (buf st) in
          let '(t', out) := transform (tstate st) (firstn n_read buf1) in
          let buf2 := in_place n_read out buf1 in
          match async_write [firstn n_read buf2] (dst st) with
          | (dst', Some ec) => Some (ec, mk_pair_state t' src' dst' buf2)
          | (dst', None) =>
              pair transform fuel' (mk_pair_state t' src' dst' buf2)
          end
      end
  end.

(** [async_local_socks5]: what [result.get()] hands back through the
    bare [yield]: the [result] vector, or the error code thrown as a
    [system_error]. *)
Definition async_local_socks5 (local_ : socket)
  : socket * result (list byte) :=
  match do_local_socks5 local_ with
  | (l, None, res) => (l, Ok res)
  | (l, Some ec, _) => (l, Err ec)
  end.

End utility.

(** ** Concrete platforms and inputs used in examples *)

(** A little-endian host with a toy keystream (position and IV mixed). *)
Definition demo_keystream (k v : list byte) (i : nat) : byte :=
  xor_byte (nth (i mod 8) v Byte.x00)
           (match Byte.of_nat ((7 * i + 3 + length k) mod 256) with
            | Some b => b
            | None => Byte.x00
            end).

(** Stand-in for the IPv6 printer: the sixteen octets it is handed, in
    hexadecimal, in the order it is handed them. *)
Definition hex_digit (n : N) : byte :=
  nth (N.to_nat n) (lit "0123456789abcdef") Byte.x00.

Definition hex_dump (a : list byte) : list byte :=
  flat_map (fun b => [hex_digit (Byte.to_N b / 16);
                      hex_digit (Byte.to_N b mod 16)])
           (firstn 16 a).

Definition demo : Platform :=
  {| host_endian := LittleEndian;
     keystream := demo_keystream;
     address_v6_to_string := hex_dump |}.

Definition demo_be : Platform :=
  {| host_endian := BigEndian;
     keystream := demo_keystream;
     address_v6_to_string := hex_dump |}.

(** An open socket on which the peer sends [segs] and then closes, and
    accepts everything written to it. *)
Definition peer_sends (segs : list (list byte)) : socket :=
  mk_socket true segs eof None broken_pipe [] [].

Definition bytes_of (l : list nat) : list byte :=
  map (fun n => byte_of_N (N.of_nat n)) l.

(** The end-to-end exchange of section 8: the greeting [5, 1, 0] and the
    request [5, 1, 0, 1, 127, 0, 0, 1, 0, 80]. *)
Definition e2e_greeting : list byte := [Byte.x05; Byte.x01; Byte.x00].

Definition e2e_request : list byte :=
  [Byte.x05; Byte.x01; Byte.x00; Byte.x01;
   Byte.x7f; Byte.x00; Byte.x00; Byte.x01; Byte.x00; Byte.x50].

Definition e2e_session : client_session :=
  new_session (peer_sends [e2e_greeting; e2e_request]) (peer_sends [])
              (bytes_of [11; 22; 33; 44])
              (fun i => byte_of_N (N.of_nat (i + 1))) None.

(** The same exchange followed by six octets of payload. *)
Definition e2e_session_payload : client_session :=
  new_session
    (peer_sends [e2e_greeting; e2e_request; lit "hello!"])
    (peer_sends [])
    (bytes_of [11; 22; 33; 44])
    (fun i => byte_of_N (N.of_nat (i + 1))) None.

(** The same exchange with a relay that answers six octets. *)
Definition e2e_session_answered : client_session :=
  new_session
    (peer_sends [e2e_greeting; e2e_request])
    (peer_sends [lit "HTTP/1"])
    (bytes_of [11; 22; 33; 44])
    (fun i => byte_of_N (N.of_nat (i + 1))) None.

(** ** Vocabulary of the statements *)

(** The octets a socket has still to deliver, whatever the segments. *)
Definition stream_of (s : socket) : list byte := concat (inbox s).

(** The transport accepts [n] more octets. *)
Definition has_room (n : nat) (s : socket) : Prop :=
  match out_room s with
  | None => True
  | Some k => n <= k
  end.

(** [s'] is [s] up to what happened on the local socket. *)
Definition local_step (s s' : client_session) : Prop :=
  with_local (local s') s = s'.

(** A computation that works on the local socket only. *)
Definition local_only {A : Type} (m : M A) : Prop :=
  forall s, local_step s (fst (m s)).

(** Where a coroutine stands on the local socket after some reads and
    writes since [s0]: the socket is open, [str] is still to be read,
    [w] has been written, and nothing else in the session changed. *)
Definition local_after (s0 s : client_session) (str w : list byte) : Prop :=
  local_step s0 s
  /\ is_open (local s) = true
  /\ stream_of (local s) = str
  /\ sent (local s) = sent (local s0) ++ w
  /\ in_end (local s) = in_end (local s0)
  /\ forall m, has_room (length w + m) (local s0) -> has_room m (local s).

(** The SOCKS5 front end got as far as a target address. *)
Definition setup_ok (P : Platform) (s : client_session) : bool :=
  match snd (do_local_socks5 P s) with
  | Ok (true, _) => true
  | _ => false
  end.

(** The session once [remote.async_connect] has succeeded. *)
Definition connected (s : client_session) : client_session :=
  with_remote (set_open true (remote s))
              (with_connects (S (connects s)) s).

(** The IV [send_handshake] draws. *)
Definition fresh_iv (s : client_session) : list byte :=
  map (entropy s) (seq 0 (length (iv s))).

(** The address as [send_handshake] encrypts it. *)
Definition encrypted_addr (P : Platform) (addr_port : list byte)
  (s : client_session) : list byte :=
  xor_stream (keystream P (key s) (fresh_iv s)) 0 addr_port.

(** The session once both ciphers are keyed and the address is
    encrypted. *)
Definition keyed (addr_port : list byte) (s : client_session)
  : client_session :=
  mk_session (local s) (remote s) (key s) (fresh_iv s)
             (mk_cipher (key s) (fresh_iv s) (length addr_port))
             (mk_cipher (key s) (fresh_iv s) 0)
             (entropy s) (connect_outcome s) (connects s) (spawned s).

(** The buffer sequence [send_handshake] passes to [async_write]. *)
Definition tunnel_frame (P : Platform) (addr_port : list byte)
  (s : client_session) : list (list byte) :=
  [store_native16 (host_endian P)
     (to_uint16 (length (fresh_iv s)
                 + length (encrypted_addr P addr_port s)));
   fresh_iv s;
   encrypted_addr P addr_port s].

(** Checking a property of every number below [count], by counting up. *)
Definition check_below (p : N -> bool) (count : N) : N * bool :=
  N.iter count (fun st => (N.succ (fst st), snd st && p (fst st)))
         (0%N, true).

(** Where code working on one socket stands after some reads and writes
    since [l0]: open, [str] still to be read, [w] written. *)
Definition sock_after (l0 l : socket) (str w : list byte) : Prop :=
  is_open l = true
  /\ stream_of l = str
  /\ sent l = sent l0 ++ w
  /\ in_end l = in_end l0
  /\ forall m, has_room (length w + m) l0 -> has_room m l.

(** The octets that follow the address type in a complete request: four
    of address and two of port, sixteen and two, or a length octet, that
    many octets of name and two of port. *)
Definition wire_address (atyp : byte) (payload : list byte) : Prop :=
  (atyp = constant.ADDR_IPV4 /\ length payload = 6)
  \/ (atyp = constant.ADDR_IPV6 /\ length payload = 18)
  \/ (atyp = constant.ADDR_DOMAIN
      /\ exists len name_port,
           payload = len :: name_port
           /\ length name_port = Byte.to_nat len + 2).

(** [s2] is [s1] with the octets still to come on the local socket cut
    into segments differently. *)
Definition resegmented (s1 s2 : client_session) : Prop :=
  exists segs,
    s2 = with_local (set_inbox segs (local s1)) s1
    /\ concat segs = stream_of (local s1).

(** A computation whose result, and whose effect up to segmentation, do
    not depend on how the local stream is cut into segments. *)
Definition segmentation_blind {A : Type} (m : M A) : Prop :=
  forall s1 s2,
    resegmented s1 s2 ->
    snd (m s1) = snd (m s2) /\ resegmented (fst (m s1)) (fst (m s2)).

(** * Properties *)

(** ** The cipher: one keystream, consumed in order *)

Lemma xor_stream_length ks pos data :
  length (xor_stream ks pos data) = length data.
Proof.
  revert pos; induction data as [|b rest IH]; intros pos; simpl; auto.
Qed.

Lemma xor_stream_app ks pos a b :
  xor_stream ks pos (a ++ b)
  = xor_stream ks pos a ++ xor_stream ks (pos + length a) b.
Proof.
  revert pos; induction a as [|x a IH]; intros pos; simpl.
  - now rewrite Nat.add_0_r.
  - rewrite IH. now replace (S pos + length a) with (pos + S (length a)) by lia.
Qed.

Lemma ProcessString_length P c data :
  length (snd (ProcessString P c data)) = length data.
Proof. apply xor_stream_length. Qed.

Lemma ProcessString_cpos P c data :
  cpos (fst (ProcessString P c data)) = cpos c + length data.
Proof. reflexivity. Qed.

(** Two calls in a row on one object are one call on the concatenation. *)
Lemma ProcessString_app P c a b :
  ProcessString P c (a ++ b)
  = (fst (ProcessString P (fst (ProcessString P c a)) b),
     snd (ProcessString P c a)
     ++ snd (ProcessString P (fst (ProcessString P c a)) b)).
Proof.
  unfold ProcessString; simpl.
  rewrite xor_stream_app, length_app, Nat.add_assoc. reflexivity.
Qed.

(** C1.  Keystream continuity.  For every key, IV, byte sequence [b] and
    split [n1 + n2 = length b]: transforming [b[0:n1]] and then
    [b[n1:n1+n2]] on the same cipher object gives, byte for byte, what one
    call on [b[0:n1+n2]] gives on an object freshly keyed with the same
    key and IV.  Each call returns exactly as many octets as it was given
    and moves the cipher by exactly that many positions, so nothing is
    held back from one call to the next. *)
Theorem keystream_continuity (P : Platform) (k v b : list byte)
  (n1 n2 : nat) :
  n1 + n2 = length b ->
  let s0 := SetKeyWithIV k v in
  let r1 := ProcessString P s0 (firstn n1 b) in
  let r2 := ProcessString P (fst r1) (firstn n2 (skipn n1 b)) in
  let whole := ProcessString P (SetKeyWithIV k v) (firstn (n1 + n2) b) in
  snd r1 ++ snd r2 = snd whole
  /\ fst r2 = fst whole
  /\ length (snd r1) = n1 /\ length (snd r2) = n2
  /\ cpos (fst r1) = n1 /\ cpos (fst r2) = n1 + n2.
Proof.
  intros Hlen s0 r1 r2 whole.
  assert (Hsplit : firstn (n1 + n2) b
                   = firstn n1 b ++ firstn n2 (skipn n1 b)).
  { rewrite Hlen, firstn_all.
    rewrite firstn_all2 with (l := skipn n1 b)
      by (rewrite length_skipn; lia).
    now rewrite firstn_skipn. }
  assert (L1 : length (firstn n1 b) = n1) by (rewrite length_firstn; lia).
  assert (L2 : length (firstn n2 (skipn n1 b)) = n2)
    by (rewrite length_firstn, length_skipn; lia).
  subst whole. rewrite Hsplit, ProcessString_app. fold s0 r1 r2.
  repeat split.
  - subst r1. now rewrite ProcessString_length.
  - subst r2. now rewrite ProcessString_length.
  - subst r1 s0. rewrite ProcessString_cpos. simpl. lia.
  - subst r2 r1 s0. rewrite !ProcessString_cpos. simpl. lia.
Qed.

Lemma keystream_continuity_witness :
  let b := bytes_of [104; 101; 108; 108; 111] in
  2 + 3 = length b
  /\ snd (ProcessString demo (SetKeyWithIV [Byte.x01] [Byte.x02])
            (firstn 2 b))
     ++ snd (ProcessString demo
               (fst (ProcessString demo (SetKeyWithIV [Byte.x01] [Byte.x02])
                       (firstn 2 b)))
               (firstn 3 (skipn 2 b)))
     = snd (ProcessString demo (SetKeyWithIV [Byte.x01] [Byte.x02])
              (firstn (2 + 3) b)).
Proof.
  split; [reflexivity|].
  exact (proj1 (@keystream_continuity demo [Byte.x01] [Byte.x02]
                  (bytes_of [104; 101; 108; 108; 111]) 2 3 eq_refl)).
Defined.

(** ** Sockets: reads see the byte stream, not its segmentation *)

Lemma read_until_stream want segs :
  read_until want segs
  = (firstn want (concat segs),
     snd (fst (read_until want segs)),
     want <=? length (concat segs))
  /\ concat (snd (fst (read_until want segs))) = skipn want (concat segs).
Proof.
  revert want; induction segs as [|c rest IH]; intros want.
  - destruct want; simpl; auto.
  - destruct want as [|w]; [simpl; auto|].
    cbn [read_until concat].
    destruct (Nat.leb_spec (length c) (S w)) as [Hle|Hgt].
    + remember (S w - length c) as m eqn:Hm.
      destruct (IH m) as [E1 E2].
      destruct (read_until m rest) as [[d rest'] ok] eqn:R.
      cbn [fst snd] in *.
      assert (Hd : d = firstn m (concat rest)) by congruence.
      assert (Hok : ok = (m <=? length (concat rest))) by congruence.
      rewrite firstn_app, skipn_app, length_app, <- Hm.
      rewrite (@firstn_all2 _ (S w) c) by lia.
      rewrite (@skipn_all2 _ (S w) c) by lia.
      rewrite E2, Hd, Hok. cbn [app]. split; [|reflexivity].
      f_equal.
      destruct (Nat.leb_spec m (length (concat rest)));
        destruct (Nat.leb_spec (S w) (length c + length (concat rest)));
        auto; lia.
    + cbn [fst snd concat].
      rewrite firstn_app, skipn_app, length_app.
      replace (S w - length c) with 0 by lia. cbn [firstn skipn].
      rewrite app_nil_r. split; [|reflexivity].
      f_equal.
      destruct (Nat.leb_spec (S w) (length c + length (concat rest)));
        auto; lia.
Qed.

Lemma async_read_enough want s :
  is_open s = true ->
  want <= length (stream_of s) ->
  exists s',
    async_read want s = (s', firstn want (stream_of s), None)
    /\ stream_of s' = skipn want (stream_of s)
    /\ is_open s' = true /\ in_end s' = in_end s
    /\ out_room s' = out_room s /\ out_err s' = out_err s
    /\ sent s' = sent s /\ wcalls s' = wcalls s.
Proof.
  intros Ho Hw. unfold async_read, stream_of in *. rewrite Ho. cbn [negb].
  destruct (read_until_stream want (inbox s)) as [E1 E2].
  rewrite E1. rewrite (proj2 (Nat.leb_le _ _) Hw).
  eexists; split; [reflexivity|]. cbn. auto 10.
Qed.

Lemma async_read_short want s :
  is_open s = true ->
  length (stream_of s) < want ->
  exists s',
    async_read want s = (s', stream_of s, Some (in_end s))
    /\ stream_of s' = []
    /\ is_open s' = true /\ in_end s' = in_end s
    /\ out_room s' = out_room s /\ out_err s' = out_err s
    /\ sent s' = sent s /\ wcalls s' = wcalls s.
Proof.
  intros Ho Hw. unfold async_read, stream_of in *. rewrite Ho. cbn [negb].
  destruct (read_until_stream want (inbox s)) as [E1 E2].
  rewrite E1. rewrite (proj2 (Nat.leb_gt _ _) Hw).
  rewrite firstn_all2 by lia.
  eexists; split; [reflexivity|]. cbn.
  rewrite E2, skipn_all2 by lia. auto 10.
Qed.

(** Whatever a read does, it writes nothing and closes nothing. *)
Lemma async_read_keeps want s :
  let s' := fst (fst (async_read want s)) in
  is_open s' = is_open s /\ in_end s' = in_end s
  /\ out_room s' = out_room s /\ out_err s' = out_err s
  /\ sent s' = sent s /\ wcalls s' = wcalls s.
Proof.
  unfold async_read. destruct (is_open s) eqn:Ho; cbn [negb].
  - destruct (read_until want (inbox s)) as [[d rest] ok]. cbn. auto 10.
  - cbn. auto 10.
Qed.

Lemma async_write_ok bufs s :
  is_open s = true ->
  has_room (length (concat bufs)) s ->
  exists s',
    async_write bufs s = (s', None)
    /\ sent s' = sent s ++ concat bufs
    /\ wcalls s' = wcalls s ++ [bufs]
    /\ inbox s' = inbox s /\ is_open s' = true /\ in_end s' = in_end s
    /\ out_err s' = out_err s
    /\ forall m, has_room (length (concat bufs) + m) s -> has_room m s'.
Proof.
  intros Ho Hr. unfold async_write, has_room in *. rewrite Ho. cbn [negb].
  destruct (out_room s) as [k|].
  - apply Nat.leb_le in Hr. rewrite Hr.
    eexists; split; [reflexivity|]. cbn. repeat split; auto.
    intros m Hm. lia.
  - eexists; split; [reflexivity|]. cbn. auto 10.
Qed.

(** A write reads nothing, and on an open socket it is logged as one
    call. *)
Lemma async_write_keeps bufs s :
  let s' := fst (async_write bufs s) in
  inbox s' = inbox s /\ is_open s' = is_open s /\ in_end s' = in_end s
  /\ (is_open s = true -> wcalls s' = wcalls s ++ [bufs])
  /\ (is_open s = false -> s' = s).
Proof.
  unfold async_write. destruct (is_open s) eqn:Ho; cbn [negb].
  - destruct (out_room s) as [k|];
      [destruct (length (concat bufs) <=? k)|]; cbn;
      repeat split; auto; discriminate.
  - cbn; repeat split; auto; discriminate.
Qed.

(** ** Steps of a coroutine on the local socket *)

Lemma local_step_refl s : local_step s s.
Proof. destruct s; reflexivity. Qed.

Lemma local_step_trans s1 s2 s3 :
  local_step s1 s2 -> local_step s2 s3 -> local_step s1 s3.
Proof.
  unfold local_step. intros H12 H23. rewrite <- H23 at 2. rewrite <- H12.
  reflexivity.
Qed.

Lemma local_only_ret {A : Type} (a : A) : local_only (ret a).
Proof. intros s. apply local_step_refl. Qed.

Lemma local_only_bind {A B : Type} (m : M A) (k : A -> M B) :
  local_only m -> (forall a, local_only (k a)) -> local_only (bind m k).
Proof.
  intros Hm Hk s. unfold bind. specialize (Hm s).
  destruct (m s) as [s' [a|e]]; cbn [fst] in *; auto.
  eapply local_step_trans; [exact Hm|apply Hk].
Qed.

Lemma local_only_read_local n : local_only (read_local n).
Proof.
  intros s. unfold read_local.
  destruct (async_read n (local s)) as [[l d] e]. reflexivity.
Qed.

Lemma local_only_write_local bufs : local_only (write_local bufs).
Proof.
  intros s. unfold write_local.
  destruct (async_write bufs (local s)) as [l e]. reflexivity.
Qed.

Ltac local_only_tac :=
  repeat first
    [ progress intros
    | apply local_only_bind
    | apply local_only_ret
    | apply local_only_read_local
    | apply local_only_write_local
    | match goal with
      | |- local_only (if ?b then _ else _) => destruct b
      | |- local_only (match ?o with Some _ => _ | None => _ end) =>
          destruct o
      end ].

Lemma local_only_do_socks5_auth : local_only do_socks5_auth.
Proof. unfold do_socks5_auth. local_only_tac. Qed.

Lemma local_only_do_get_proxy_addr P : local_only (do_get_proxy_addr P).
Proof. unfold do_get_proxy_addr. local_only_tac. Qed.

Lemma local_only_do_local_socks5 P : local_only (do_local_socks5 P).
Proof.
  unfold do_local_socks5. apply local_only_bind.
  - apply local_only_do_socks5_auth.
  - intros [|]; [apply local_only_do_get_proxy_addr|apply local_only_ret].
Qed.

Lemma local_after_init s :
  is_open (local s) = true ->
  local_after s s (stream_of (local s)) [].
Proof.
  intros Ho. unfold local_after.
  rewrite app_nil_r. repeat split; auto using local_step_refl.
Qed.

Lemma read_local_enough n s0 s str w :
  local_after s0 s str w ->
  n <= length str ->
  exists s',
    read_local n s = (s', Ok (firstn n str))
    /\ local_after s0 s' (skipn n str) w.
Proof.
  intros (Hs & Ho & Hstr & Hsnt & Hend & Hroom) Hn.
  destruct (@async_read_enough n (local s) Ho) as (l & E & F);
    [rewrite Hstr; exact Hn|].
  destruct F as (F1 & F2 & F3 & F4 & F5 & F6 & F7).
  exists (with_local l s). unfold read_local. rewrite E, Hstr.
  split; [reflexivity|].
  unfold local_after. cbn [local with_local].
  repeat split; try congruence.
  - eapply local_step_trans; [exact Hs|]. reflexivity.
  - intros m Hm. specialize (Hroom m Hm).
    unfold has_room in *. now rewrite F4.
Qed.

Lemma read_local_short n s0 s str w :
  local_after s0 s str w ->
  length str < n ->
  exists s',
    read_local n s = (s', Err (in_end (local s0)))
    /\ local_after s0 s' [] w.
Proof.
  intros (Hs & Ho & Hstr & Hsnt & Hend & Hroom) Hn.
  destruct (@async_read_short n (local s) Ho) as (l & E & F);
    [rewrite Hstr; exact Hn|].
  destruct F as (F1 & F2 & F3 & F4 & F5 & F6 & F7).
  exists (with_local l s). unfold read_local. rewrite E, Hend.
  split; [reflexivity|].
  unfold local_after. cbn [local with_local].
  repeat split; try congruence.
  - eapply local_step_trans; [exact Hs|]. reflexivity.
  - intros m Hm. specialize (Hroom m Hm).
    unfold has_room in *. now rewrite F4.
Qed.

Lemma write_local_ok bufs s0 s str w :
  local_after s0 s str w ->
  has_room (length (w ++ concat bufs)) (local s0) ->
  exists s',
    write_local bufs s = (s', Ok tt)
    /\ local_after s0 s' str (w ++ concat bufs)
    /\ wcalls (local s') = wcalls (local s) ++ [bufs].
Proof.
  intros (Hs & Ho & Hstr & Hsnt & Hend & Hroom) Hr.
  rewrite length_app in Hr.
  assert (Hr' : has_room (length (concat bufs)) (local s)).
  { apply Hroom. exact Hr. }
  destruct (@async_write_ok bufs (local s) Ho Hr') as (l & E & F).
  destruct F as (F1 & F2 & F3 & F4 & F5 & F6 & F7).
  exists (with_local l s). unfold write_local. rewrite E.
  split; [reflexivity|].
  unfold local_after, stream_of in *. cbn [local with_local].
  repeat split; try congruence.
  - eapply local_step_trans; [exact Hs|]. reflexivity.
  - rewrite F1, Hsnt. now rewrite app_assoc.
  - intros m Hm. apply F7, Hroom.
    rewrite length_app in Hm. now rewrite Nat.add_assoc.
Qed.

(** ** The greeting *)

Lemma firstn_app_exact {A : Type} (a b : list A) n :
  n = length a -> firstn n (a ++ b) = a.
Proof.
  intros ->. rewrite firstn_app, Nat.sub_diag, firstn_all. cbn.
  apply app_nil_r.
Qed.

Lemma skipn_app_exact {A : Type} (a b : list A) n :
  n = length a -> skipn n (a ++ b) = b.
Proof.
  intros ->. rewrite skipn_app, Nat.sub_diag, skipn_all. reflexivity.
Qed.

(** A complete greeting that offers "no authentication" is answered with
    [5, 0] and accepted, whatever its version octet. *)
Lemma do_socks5_auth_accepts s0 s ver n methods rest w :
  local_after s0 s (ver :: n :: methods ++ rest) w ->
  length methods = Byte.to_nat n ->
  existsb (Byte.eqb constant.AUTH_NO_AUTH) methods = true ->
  has_room (length (w ++ [Byte.x05; Byte.x00])) (local s0) ->
  exists s',
    do_socks5_auth s = (s', Ok true)
    /\ local_after s0 s' rest (w ++ [Byte.x05; Byte.x00]).
Proof.
  intros H Hlen Hex Hroom. unfold do_socks5_auth, bind.
  destruct (read_local_enough (n := 2) H) as (s1 & E1 & H1);
    [cbn; lia|].
  rewrite E1. cbn [firstn skipn nth] in *.
  destruct (read_local_enough (n := Byte.to_nat n) H1) as (s2 & E2 & H2);
    [rewrite length_app; lia|].
  rewrite E2. rewrite firstn_app_exact in * by auto.
  rewrite skipn_app_exact in H2 by auto.
  rewrite Hex. cbn [negb].
  destruct (write_local_ok
              [[constant.SOCKS5_VERSION; constant.AUTH_NO_AUTH]] H2)
    as (s3 & E3 & H3 & _); [exact Hroom|].
  rewrite E3. exists s3. split; [reflexivity|exact H3].
Qed.

(** A complete greeting that does not offer it is refused without a
    reply. *)
Lemma do_socks5_auth_rejects s0 s ver n methods rest w :
  local_after s0 s (ver :: n :: methods ++ rest) w ->
  length methods = Byte.to_nat n ->
  existsb (Byte.eqb constant.AUTH_NO_AUTH) methods = false ->
  exists s',
    do_socks5_auth s = (s', Ok false) /\ local_after s0 s' rest w.
Proof.
  intros H Hlen Hex. unfold do_socks5_auth, bind.
  destruct (read_local_enough (n := 2) H) as (s1 & E1 & H1);
    [cbn; lia|].
  rewrite E1. cbn [firstn skipn nth] in *.
  destruct (read_local_enough (n := Byte.to_nat n) H1) as (s2 & E2 & H2);
    [rewrite length_app; lia|].
  rewrite E2. rewrite firstn_app_exact in * by auto.
  rewrite skipn_app_exact in H2 by auto.
  rewrite Hex. cbn [negb]. exists s2. split; [reflexivity|exact H2].
Qed.

(** A greeting cut short makes the read throw the stream's error. *)
Lemma do_socks5_auth_truncated s0 s str w :
  local_after s0 s str w ->
  length str < 2
  \/ (exists ver n tail,
        str = ver :: n :: tail /\ length tail < Byte.to_nat n) ->
  exists s',
    do_socks5_auth s = (s', Err (in_end (local s0)))
    /\ local_after s0 s' [] w.
Proof.
  intros H [Hshort|(ver & n & tail & -> & Hshort)];
    unfold do_socks5_auth, bind.
  - destruct (read_local_short (n := 2) H) as (s1 & E1 & H1); [lia|].
    rewrite E1. eauto.
  - destruct (read_local_enough (n := 2) H) as (s1 & E1 & H1);
      [cbn; lia|].
    rewrite E1. cbn [firstn skipn nth] in *.
    destruct (read_local_short (n := Byte.to_nat n) H1) as (s2 & E2 & H2);
      [lia|].
    rewrite E2. eauto.
Qed.

(** ** Integers on the wire and in memory *)

Lemma byte_lt_256 (b : byte) : (Byte.to_N b < 256)%N.
Proof. pose proof (Byte.to_N_bounded b). lia. Qed.

Lemma split_256 (a b : N) :
  (a < 256)%N ->
  ((a + 256 * b) mod 256 = a /\ (a + 256 * b) / 256 = b)%N.
Proof.
  intros Ha.
  destruct (N.div_mod_unique 256 ((a + 256 * b) / 256) b
              ((a + 256 * b) mod 256) a) as [Hq Hr]; auto.
  - apply N.mod_lt. discriminate.
  - rewrite <- N.div_mod by discriminate. lia.
Qed.

(** Two octets read through a [uint16_t] and [big_to_native] are the
    big-endian number they spell, on either kind of host. *)
Lemma big_to_native16_load e (p0 p1 : byte) :
  big_to_native16 e (load_native e [p0; p1])
  = (256 * Byte.to_N p0 + Byte.to_N p1)%N.
Proof.
  pose proof (byte_lt_256 p0) as H0. pose proof (byte_lt_256 p1) as H1.
  destruct e; cbn [big_to_native16 load_native load_le rev app fold_right].
  - unfold endian_reverse16.
    rewrite N.mul_0_r, N.add_0_r.
    destruct (split_256 (Byte.to_N p1) H0) as [-> ->].
    rewrite N.mod_small by assumption. lia.
  - lia.
Qed.

Lemma load_le_bound (bs : list byte) :
  (load_le bs < 256 ^ N.of_nat (length bs))%N.
Proof.
  induction bs as [|b bs IH]; cbn [load_le fold_right length].
  - cbn. lia.
  - fold (load_le bs). rewrite Nat2N.inj_succ, N.pow_succ_r'.
    pose proof (byte_lt_256 b). lia.
Qed.

Lemma big_to_native16_bound e (bs : list byte) :
  length bs <= 2 ->
  (big_to_native16 e (load_native e bs) < 65536)%N.
Proof.
  intros Hl. destruct e; cbn [big_to_native16 load_native].
  - unfold endian_reverse16.
    pose proof (N.mod_lt (load_le bs) 256).
    pose proof (N.mod_lt (load_le bs / 256) 256). lia.
  - pose proof (load_le_bound (rev bs)) as Hb. rewrite length_rev in Hb.
    assert (256 ^ N.of_nat (length bs) <= 256 ^ 2)%N.
    { apply N.pow_le_mono_r; lia. }
    change (256 ^ 2)%N with 65536%N in *. lia.
Qed.

(** ** Decimal printing stays short *)

Lemma check_below_sound (p : N -> bool) (count : N) :
  fst (check_below p count) = count
  /\ (snd (check_below p count) = true ->
      forall n, (n < count)%N -> p n = true).
Proof.
  unfold check_below. induction count as [|c IH] using N.peano_ind.
  - cbn. split; [reflexivity|]. intros _ n Hn. lia.
  - rewrite N.iter_succ. cbn [fst snd]. destruct IH as [IH1 IH2].
    rewrite IH1. split; [reflexivity|].
    intros Hall n Hn. apply andb_true_iff in Hall. destruct Hall as [Ha Hp].
    destruct (N.eq_dec n c) as [->|Hne]; [exact Hp|].
    apply IH2; [exact Ha|lia].
Qed.

Lemma to_string_short_below (bound : N) (width : nat) :
  snd (check_below (fun k => length (to_string k) <=? width) bound) = true ->
  forall n, (n < bound)%N -> length (to_string n) <= width.
Proof.
  intros Hall n Hn.
  apply Nat.leb_le.
  exact (proj2 (check_below_sound _ bound) Hall n Hn).
Qed.

Lemma to_string_u8 n : (n < 256)%N -> length (to_string n) <= 3.
Proof.
  apply (@to_string_short_below 256 3). vm_compute. reflexivity.
Qed.

Lemma to_string_u16 n : (n < 65536)%N -> length (to_string n) <= 5.
Proof.
  apply (@to_string_short_below 65536 5). vm_compute. reflexivity.
Qed.

Lemma address_v4_to_string_short a :
  length (address_v4_to_string a) <= 15.
Proof.
  unfold address_v4_to_string. rewrite !length_app.
  change (length (lit ".")) with 1.
  pose proof (@to_string_u8 ((a / 16777216) mod 256)).
  pose proof (@to_string_u8 ((a / 65536) mod 256)).
  pose proof (@to_string_u8 ((a / 256) mod 256)).
  pose proof (@to_string_u8 (a mod 256)).
  pose proof (N.mod_lt (a / 16777216) 256).
  pose proof (N.mod_lt (a / 65536) 256).
  pose proof (N.mod_lt (a / 256) 256).
  pose proof (N.mod_lt a 256).
  assert (256 <> 0)%N by discriminate. intuition lia.
Qed.

(** ** The request *)

Lemma read_local_length n s s' d :
  read_local n s = (s', Ok d) -> length d = n.
Proof.
  unfold read_local, async_read.
  destruct (is_open (local s)); cbn [negb]; [|discriminate].
  destruct (read_until_stream n (inbox (local s))) as [E _]. rewrite E.
  destruct (Nat.leb_spec n (length (concat (inbox (local s)))));
    [|discriminate].
  intros Hr; inversion Hr; subst. rewrite length_firstn. lia.
Qed.

Ltac eqb_consts :=
  repeat match goal with
    | |- context [Byte.eqb ?a ?b] =>
        let v := eval vm_compute in (Byte.eqb a b) in
        change (Byte.eqb a b) with v
    end;
  cbn [negb].

(** A complete CONNECT request for a domain name. *)
Lemma do_get_proxy_addr_domain P s0 s rsv len domain p0 p1 rest w :
  local_after s0 s
    (constant.SOCKS5_VERSION :: constant.CONN_TCP :: rsv
     :: constant.ADDR_DOMAIN :: len :: domain ++ p0 :: p1 :: rest) w ->
  length domain = Byte.to_nat len ->
  has_room (length (w ++ reply)) (local s0) ->
  exists s',
    do_get_proxy_addr P s
    = (s', Ok (true,
               domain ++ lit ":"
               ++ to_string (256 * Byte.to_N p0 + Byte.to_N p1)%N))
    /\ local_after s0 s' rest (w ++ reply).
Proof.
  intros H Hlen Hroom. unfold do_get_proxy_addr, bind.
  destruct (read_local_enough (n := 4) H) as (s1 & E1 & H1);
    [cbn; lia|].
  rewrite E1. cbn [firstn skipn nth] in *. eqb_consts.
  destruct (read_local_enough (n := 1) H1) as (s2 & E2 & H2);
    [cbn; lia|].
  rewrite E2. cbn [firstn skipn nth] in *.
  destruct (read_local_enough (n := Byte.to_nat len + 2) H2)
    as (s3 & E3 & H3);
    [rewrite length_app; cbn [length]; lia|].
  rewrite E3. unfold ret at 1.
  change (domain ++ p0 :: p1 :: rest)
    with (domain ++ [p0; p1] ++ rest) in *.
  rewrite app_assoc in *.
  rewrite firstn_app_exact in *
    by (rewrite length_app; cbn [length]; lia).
  rewrite skipn_app_exact in H3
    by (rewrite length_app; cbn [length]; lia).
  destruct (write_local_ok [reply] H3) as (s4 & E4 & H4 & _).
  { cbn [concat]. now rewrite app_nil_r. }
  rewrite E4. exists s4. cbn [concat] in H4. rewrite app_nil_r in H4.
  split; [|exact H4].
  unfold ret, addr_port_domain.
  rewrite firstn_app_exact, skipn_app_exact by lia.
  now rewrite big_to_native16_load.
Qed.

(** A domain request that announces more than the stream holds, name and
    port together, makes the read throw; no reply is written. *)
Lemma do_get_proxy_addr_domain_truncated P s0 s rsv len avail w :
  local_after s0 s
    (constant.SOCKS5_VERSION :: constant.CONN_TCP :: rsv
     :: constant.ADDR_DOMAIN :: len :: avail) w ->
  length avail < Byte.to_nat len + 2 ->
  exists s',
    do_get_proxy_addr P s = (s', Err (in_end (local s0)))
    /\ local_after s0 s' [] w.
Proof.
  intros H Hlen. unfold do_get_proxy_addr, bind.
  destruct (read_local_enough (n := 4) H) as (s1 & E1 & H1);
    [cbn; lia|].
  rewrite E1. cbn [firstn skipn nth] in *. eqb_consts.
  destruct (read_local_enough (n := 1) H1) as (s2 & E2 & H2);
    [cbn; lia|].
  rewrite E2. cbn [firstn skipn nth] in *.
  destruct (read_local_short (n := Byte.to_nat len + 2) H2)
    as (s3 & E3 & H3); [lia|].
  rewrite E3. eauto.
Qed.

(** A complete CONNECT request for an IPv6 address: the printer is handed
    the sixteen octets in reverse order. *)
Lemma do_get_proxy_addr_v6 P s0 s rsv a p0 p1 rest w :
  local_after s0 s
    (constant.SOCKS5_VERSION :: constant.CONN_TCP :: rsv
     :: constant.ADDR_IPV6 :: a ++ p0 :: p1 :: rest) w ->
  length a = 16 ->
  has_room (length (w ++ reply)) (local s0) ->
  exists s',
    do_get_proxy_addr P s
    = (s', Ok (true,
               address_v6_to_string P (rev a) ++ lit ":"
               ++ to_string (256 * Byte.to_N p0 + Byte.to_N p1)%N))
    /\ local_after s0 s' rest (w ++ reply).
Proof.
  intros H Hlen Hroom. unfold do_get_proxy_addr, bind.
  destruct (read_local_enough (n := 4) H) as (s1 & E1 & H1);
    [cbn; lia|].
  rewrite E1. cbn [firstn skipn nth] in *. eqb_consts.
  change (128 / 8 + 2) with 18.
  destruct (read_local_enough (n := 18) H1) as (s2 & E2 & H2);
    [rewrite length_app; cbn [length]; lia|].
  rewrite E2. unfold ret at 1.
  change (a ++ p0 :: p1 :: rest) with (a ++ [p0; p1] ++ rest) in *.
  rewrite app_assoc in *.
  rewrite firstn_app_exact in *
    by (rewrite length_app; cbn [length]; lia).
  rewrite skipn_app_exact in H2
    by (rewrite length_app; cbn [length]; lia).
  destruct (write_local_ok [reply] H2) as (s3 & E3 & H3 & _).
  { cbn [concat]. now rewrite app_nil_r. }
  rewrite E3. exists s3. cbn [concat] in H3. rewrite app_nil_r in H3.
  split; [|exact H3].
  unfold ret, addr_port_v6.
  rewrite firstn_app_exact, skipn_app_exact by lia.
  cbn [firstn]. now rewrite big_to_native16_load.
Qed.

(** A complete CONNECT request for an IPv4 address. *)
Lemma do_get_proxy_addr_v4 P s0 s rsv a0 a1 a2 a3 p0 p1 rest w :
  local_after s0 s
    (constant.SOCKS5_VERSION :: constant.CONN_TCP :: rsv
     :: constant.ADDR_IPV4 :: a0 :: a1 :: a2 :: a3 :: p0 :: p1 :: rest) w ->
  has_room (length (w ++ reply)) (local s0) ->
  exists s',
    do_get_proxy_addr P s
    = (s', Ok (true, addr_port_v4 P [a0; a1; a2; a3; p0; p1]))
    /\ local_after s0 s' rest (w ++ reply).
Proof.
  intros H Hroom. unfold do_get_proxy_addr, bind.
  destruct (read_local_enough (n := 4) H) as (s1 & E1 & H1);
    [cbn; lia|].
  rewrite E1. cbn [firstn skipn nth] in *. eqb_consts.
  change (32 / 8 + 2) with 6.
  destruct (read_local_enough (n := 6) H1) as (s2 & E2 & H2);
    [cbn [length]; lia|].
  rewrite E2. unfold ret at 1. cbn [firstn skipn] in *.
  destruct (write_local_ok [reply] H2) as (s3 & E3 & H3 & _).
  { cbn [concat]. now rewrite app_nil_r. }
  rewrite E3. exists s3. cbn [concat] in H3. rewrite app_nil_r in H3.
  split; [reflexivity|exact H3].
Qed.

(** The text a request is turned into is short: at most 255 octets of
    name or the printed address, a colon, and at most five digits. *)
Lemma addr_port_v4_short P ap_buf : length (addr_port_v4 P ap_buf) <= 21.
Proof.
  unfold addr_port_v4. rewrite !length_app.
  change (length (lit ":")) with 1.
  pose proof (address_v4_to_string_short
                (big_to_native32 (host_endian P)
                   (load_native (host_endian P) (firstn 4 ap_buf)))).
  pose proof (@big_to_native16_bound (host_endian P)
                (firstn 2 (skipn 4 ap_buf))) as Hp.
  rewrite length_firstn in Hp.
  pose proof (to_string_u16 (Hp ltac:(lia))). lia.
Qed.

Lemma addr_port_v6_short P ap_buf n :
  (forall a, length (address_v6_to_string P a) <= n) ->
  length (addr_port_v6 P ap_buf) <= n + 6.
Proof.
  intros Hv6. unfold addr_port_v6. rewrite !length_app.
  change (length (lit ":")) with 1.
  pose proof (Hv6 (rev (firstn 16 ap_buf))).
  pose proof (@big_to_native16_bound (host_endian P)
                (firstn 2 (skipn 16 ap_buf))) as Hp.
  rewrite length_firstn in Hp.
  pose proof (to_string_u16 (Hp ltac:(lia))). lia.
Qed.

Lemma addr_port_domain_short P (len : byte) ap_buf :
  length ap_buf = Byte.to_nat len + 2 ->
  length (addr_port_domain P (Byte.to_nat len) ap_buf) <= 261.
Proof.
  intros Hl. unfold addr_port_domain. rewrite !length_app.
  change (length (lit ":")) with 1.
  pose proof (Byte.to_nat_bounded len).
  pose proof (@big_to_native16_bound (host_endian P)
                (skipn (Byte.to_nat len) ap_buf)) as Hp.
  rewrite length_skipn in Hp.
  pose proof (to_string_u16 (Hp ltac:(lia))).
  rewrite length_firstn. lia.
Qed.

Lemma do_get_proxy_addr_short P n s s' a_p :
  (forall a, length (address_v6_to_string P a) <= n) ->
  do_get_proxy_addr P s = (s', Ok (true, a_p)) ->
  length a_p <= Nat.max 261 (n + 6).
Proof.
  intros Hv6. unfold do_get_proxy_addr, bind.
  destruct (read_local 4 s) as [s1 [request|e]]; [|discriminate].
  destruct (negb _); [unfold ret; intros E; inversion E|].
  destruct (negb _); [unfold ret; intros E; inversion E|].
  destruct (Byte.eqb _ constant.ADDR_IPV4).
  { destruct (read_local _ s1) as [s2 [ap_buf|e]]; [|discriminate].
    unfold ret at 1. destruct (write_local _ s2) as [s3 [u|e]];
      [|discriminate].
    unfold ret. intros E; inversion E; subst.
    pose proof (addr_port_v4_short P ap_buf). lia. }
  destruct (Byte.eqb _ constant.ADDR_IPV6).
  { destruct (read_local _ s1) as [s2 [ap_buf|e]]; [|discriminate].
    unfold ret at 1. destruct (write_local _ s2) as [s3 [u|e]];
      [|discriminate].
    unfold ret. intros E; inversion E; subst.
    pose proof (@addr_port_v6_short P ap_buf n Hv6). lia. }
  destruct (Byte.eqb _ constant.ADDR_DOMAIN).
  { destruct (read_local 1 s1) as [s2 [len|e]]; [|discriminate].
    destruct (read_local _ s2) as [s3 [ap_buf|e]] eqn:R; [|discriminate].
    apply read_local_length in R.
    unfold ret at 1. destruct (write_local _ s3) as [s4 [u|e]];
      [|discriminate].
    unfold ret. intros E; inversion E; subst.
    pose proof (@addr_port_domain_short P (nth 0 len Byte.x00) ap_buf R).
    lia. }
  unfold ret. intros E; inversion E.
Qed.

Lemma do_local_socks5_short P n s s' a_p :
  (forall a, length (address_v6_to_string P a) <= n) ->
  do_local_socks5 P s = (s', Ok (true, a_p)) ->
  length a_p <= Nat.max 261 (n + 6).
Proof.
  intros Hv6. unfold do_local_socks5, bind.
  destruct (do_socks5_auth s) as [s1 [[|]|e]]; try discriminate.
  apply do_get_proxy_addr_short, Hv6.
Qed.

(** ** The tunnel handshake *)

Lemma local_step_frame s s' :
  local_step s s' ->
  remote s' = remote s /\ key s' = key s /\ iv s' = iv s
  /\ encrypt s' = encrypt s /\ decrypt s' = decrypt s
  /\ entropy s' = entropy s /\ connect_outcome s' = connect_outcome s
  /\ connects s' = connects s /\ spawned s' = spawned s.
Proof. intros <-. cbn. auto 10. Qed.

Lemma send_handshake_unfold P addr_port s :
  send_handshake P addr_port s
  = write_remote (tunnel_frame P addr_port s) (keyed addr_port s).
Proof. reflexivity. Qed.

Lemma fresh_iv_length s : length (fresh_iv s) = length (iv s).
Proof. unfold fresh_iv. now rewrite length_map, length_seq. Qed.

Lemma encrypted_addr_length P addr_port s :
  length (encrypted_addr P addr_port s) = length addr_port.
Proof. apply xor_stream_length. Qed.

(** What [send_handshake] leaves, whether or not the write succeeds. *)
Lemma send_handshake_state P addr_port s :
  let s' := fst (send_handshake P addr_port s) in
  local s' = local s /\ key s' = key s /\ iv s' = fresh_iv s
  /\ encrypt s' = mk_cipher (key s) (fresh_iv s) (length addr_port)
  /\ decrypt s' = mk_cipher (key s) (fresh_iv s) 0
  /\ connects s' = connects s /\ spawned s' = spawned s
  /\ is_open (remote s') = is_open (remote s)
  /\ (is_open (remote s) = true ->
      wcalls (remote s')
      = wcalls (remote s) ++ [tunnel_frame P addr_port s]).
Proof.
  rewrite send_handshake_unfold. unfold write_remote.
  pose proof (async_write_keeps (tunnel_frame P addr_port s)
                (remote (keyed addr_port s))) as K.
  destruct (async_write _ (remote (keyed addr_port s))) as [r e].
  cbn [fst] in *. destruct K as (_ & K2 & _ & K4 & _).
  cbn. auto 12.
Qed.

Lemma load_store_native16 e v :
  (v < 65536)%N -> load_native e (store_native16 e v) = v.
Proof.
  intros Hv.
  assert (Hq : (v / 256 < 256)%N)
    by (apply N.Div0.div_lt_upper_bound; lia).
  assert (B : forall n, (n < 256)%N -> Byte.to_N (byte_of_N n) = n).
  { intros n Hn. unfold byte_of_N. rewrite N.mod_small by assumption.
    destruct (Byte.of_N n) as [b|] eqn:E.
    - now apply Byte.to_of_N.
    - apply Byte.of_N_None_iff in E. lia. }
  assert (B' : Byte.to_N (byte_of_N v) = (v mod 256)%N).
  { unfold byte_of_N.
    pose proof (N.mod_lt v 256 ltac:(discriminate)) as Hm.
    destruct (Byte.of_N (v mod 256)) as [b|] eqn:E.
    - now apply Byte.to_of_N.
    - apply Byte.of_N_None_iff in E. lia. }
  pose proof (N.div_mod v 256 ltac:(discriminate)).
  destruct e; cbn [load_native store_native16 rev app load_le fold_right];
    rewrite B' , (B _ Hq); lia.
Qed.

Lemma store_native16_length e v : length (store_native16 e v) = 2.
Proof. destruct e; reflexivity. Qed.

(** ** [start] *)

Lemma start_aborts P s :
  setup_ok P s = false -> start P s = fst (do_local_socks5 P s).
Proof.
  unfold setup_ok, start, start_try, bind.
  destruct (do_local_socks5 P s) as [s1 [[[|] a]|e]]; cbn;
    intros; try discriminate; reflexivity.
Qed.

Lemma start_handshakes P s s1 addr_port :
  do_local_socks5 P s = (s1, Ok (true, addr_port)) ->
  connect_outcome s = None ->
  let s2 := fst (send_handshake P addr_port (connected s1)) in
  (start P s = s2
   \/ start P s
      = with_spawned (spawned s2 ++ [local_to_remote; remote_to_local]) s2)
  /\ local_step s s1.
Proof.
  intros E Hc s2. pose proof (local_only_do_local_socks5 P s) as Hs.
  rewrite E in Hs. cbn [fst] in Hs.
  destruct (local_step_frame Hs) as (_ & _ & _ & _ & _ & _ & Hc1 & _).
  split; [|exact Hs].
  assert (Hstart :
    start P s
    = match send_handshake P addr_port (connected s1) with
      | (s3, Ok _) =>
          with_spawned (spawned s3 ++ [local_to_remote; remote_to_local]) s3
      | (s3, Err _) => s3
      end).
  { unfold start, start_try, bind. rewrite E. cbn [negb].
    unfold connect_remote. rewrite Hc1, Hc. fold (connected s1).
    destruct (send_handshake P addr_port (connected s1)) as [s3 [u|e]];
      reflexivity. }
  rewrite Hstart. subst s2.
  destruct (send_handshake P addr_port (connected s1)) as [s3 [u|e]];
    cbn [fst]; auto.
Qed.

Lemma connected_frame s :
  local (connected s) = local s /\ key (connected s) = key s
  /\ iv (connected s) = iv s /\ entropy (connected s) = entropy s
  /\ connects (connected s) = S (connects s)
  /\ is_open (remote (connected s)) = true
  /\ wcalls (remote (connected s)) = wcalls (remote s).
Proof. repeat split. Qed.

Lemma start_after_handshake P s s1 addr_port :
  do_local_socks5 P s = (s1, Ok (true, addr_port)) ->
  connect_outcome s = None ->
  let iv' := map (entropy s) (seq 0 (length (iv s))) in
  let enc := xor_stream (keystream P (key s) iv') 0 addr_port in
  iv (start P s) = iv'
  /\ encrypt (start P s) = mk_cipher (key s) iv' (length addr_port)
  /\ decrypt (start P s) = mk_cipher (key s) iv' 0
  /\ local (start P s) = local s1
  /\ connects (start P s) = S (connects s)
  /\ is_open (remote (start P s)) = true
  /\ wcalls (remote (start P s))
     = wcalls (remote s)
       ++ [[store_native16 (host_endian P)
              (to_uint16 (length iv' + length enc)); iv'; enc]].
Proof.
  intros E Hc iv' enc.
  destruct (start_handshakes P s E Hc) as [Hstart Hs].
  destruct (local_step_frame Hs)
    as (Hr & Hk & Hiv & _ & _ & Hent & _ & Hcon & _).
  destruct (connected_frame s1) as (C1 & C2 & C3 & C4 & C5 & C6 & C7).
  pose proof (send_handshake_state P addr_port (connected s1)) as St.
  cbv zeta in St.
  remember (fst (send_handshake P addr_port (connected s1))) as s2 eqn:Hs2.
  remember (connected s1) as c eqn:Hcd.
  destruct St as (S1 & S2 & S3 & S4 & S5 & S6 & S7 & S8 & S9).
  specialize (S9 C6).
  assert (Hfi : fresh_iv c = iv').
  { unfold fresh_iv. rewrite C3, C4, Hent, Hiv. reflexivity. }
  assert (Hkey : key c = key s) by (rewrite C2; exact Hk).
  assert (Hfr : tunnel_frame P addr_port c
                = [store_native16 (host_endian P)
                     (to_uint16 (length iv' + length enc)); iv'; enc]).
  { unfold tunnel_frame, encrypted_addr. rewrite Hfi, Hkey. reflexivity. }
  assert (R : iv s2 = iv'
              /\ encrypt s2 = mk_cipher (key s) iv' (length addr_port)
              /\ decrypt s2 = mk_cipher (key s) iv' 0
              /\ local s2 = local s1
              /\ connects s2 = S (connects s)
              /\ is_open (remote s2) = true
              /\ wcalls (remote s2)
                 = wcalls (remote s)
                   ++ [[store_native16 (host_endian P)
                          (to_uint16 (length iv' + length enc)); iv'; enc]]).
  { rewrite S3, S4, S5, S1, S6, S8, S9, Hfi, Hkey, Hfr, C1, C5, C6, C7,
      Hr, Hcon.
    repeat split. }
  clear - Hstart R.
  destruct Hstart as [-> | ->]; [exact R|].
  destruct s2; exact R.
Qed.

(** What the handshake write has put on the wire when [start] returns:
    the whole frame, or the octets the relay accepted before the write
    failed. *)
Lemma start_handshake_wire P s s1 addr_port :
  do_local_socks5 P s = (s1, Ok (true, addr_port)) ->
  connect_outcome s = None ->
  let iv' := map (entropy s) (seq 0 (length (iv s))) in
  let enc := xor_stream (keystream P (key s) iv') 0 addr_port in
  let size :=
    store_native16 (host_endian P) (to_uint16 (length iv' + length enc)) in
  sent (remote (start P s))
  = sent (remote s)
    ++ match out_room (remote s) with
       | None => size ++ iv' ++ enc
       | Some r => firstn r (size ++ iv' ++ enc)
       end.
Proof.
  intros E Hc iv' enc size.
  pose proof (local_only_do_local_socks5 P s) as Hs.
  rewrite E in Hs. cbn [fst] in Hs.
  destruct (local_step_frame Hs)
    as (F1 & F2 & F3 & F4 & F5 & F6 & F7 & F8 & F9).
  assert (Hfi : fresh_iv (connected s1) = iv').
  { unfold fresh_iv, connected. cbn. now rewrite F6, F3. }
  assert (Hfr : tunnel_frame P addr_port (connected s1) = [size; iv'; enc]).
  { unfold tunnel_frame, encrypted_addr. rewrite Hfi.
    cbn [connected key with_remote with_connects]. now rewrite F2. }
  assert (Hcat : concat [size; iv'; enc] = size ++ iv' ++ enc)
    by (cbn [concat]; now rewrite app_nil_r).
  assert (Hstart :
    start P s
    = match send_handshake P addr_port (connected s1) with
      | (s3, Ok _) =>
          with_spawned (spawned s3 ++ [local_to_remote; remote_to_local]) s3
      | (s3, Err _) => s3
      end).
  { unfold start, start_try, bind. rewrite E. cbn [negb].
    unfold connect_remote. rewrite F7, Hc. fold (connected s1).
    destruct (send_handshake P addr_port (connected s1)) as [s3 [u|e]];
      reflexivity. }
  rewrite Hstart, send_handshake_unfold, Hfr.
  unfold write_remote, async_write.
  cbn [keyed remote connected with_remote with_connects set_open is_open
       out_room negb].
  rewrite F1, Hcat.
  destruct (out_room (remote s)) as [r|]; [|reflexivity].
  destruct (Nat.leb_spec (length (size ++ iv' ++ enc)) r) as [Hle|Hgt].
  - cbn. now rewrite firstn_all2.
  - reflexivity.
Qed.

(** C4 (as stated).  A partial frame can be observed.  In the end-to-end
    exchange towards a relay that accepts five octets and then resets
    the connection, the one write is handed the 22 octets of the frame,
    and the relay has received the first five of them, the size field
    and three octets of the IV, when [start] returns, with the remote
    socket still open. *)
Lemma handshake_frame_cut_short :
  let s :=
    new_session (peer_sends [e2e_greeting; e2e_request])
                (mk_socket false [] eof (Some 5) connection_reset [] [])
                (bytes_of [11; 22; 33; 44])
                (fun i => byte_of_N (N.of_nat (i + 1))) None in
  (exists size iv' enc,
     wcalls (remote (start demo s)) = [[size; iv'; enc]]
     /\ length (size ++ iv' ++ enc) = 22
     /\ load_native LittleEndian size = 20%N)
  /\ sent (remote (start demo s))
     = [Byte.x14; Byte.x00; Byte.x01; Byte.x02; Byte.x03]
  /\ is_open (remote (start demo s)) = true.
Proof.
  split; [|split; vm_compute; reflexivity].
  eexists _, _, _. split; [vm_compute; reflexivity|].
  split; vm_compute; reflexivity.
Qed.

(** C4 (amended).  The tunnel handshake frame.  For every session whose
    SOCKS5 front end succeeds and whose connect succeeds, [start] issues
    exactly one write on the remote socket, a buffer sequence of three
    buffers [size; iv; encrypted address]; [size] is two octets whose
    value is [len(iv) + len(encrypted address)], the IV being the eight
    octets just drawn and the address the "host:port" text transformed
    by the freshly keyed send cipher.  For the end-to-end exchange
    (greeting [5,1,0], request [5,1,0,1,127,0,0,1,0,80]) the value is
    [8 + len("127.0.0.1:80")].  The write is one call, not one
    indivisible transfer: what the relay has received when [start]
    returns is the whole frame if it accepted that much, and otherwise
    the first octets of the frame, as many as it accepted, on a socket
    that [start] leaves open.  The IPv6 printer of the library is
    assumed to print at most 45 characters. *)
Theorem tunnel_frame_size (P : Platform) (s : client_session) :
  length (iv s) = 8 ->
  connect_outcome s = None ->
  (forall a, length (address_v6_to_string P a) <= 45) ->
  (forall s1 addr_port,
     do_local_socks5 P s = (s1, Ok (true, addr_port)) ->
     exists size iv' enc,
       wcalls (remote (start P s)) = wcalls (remote s) ++ [[size; iv'; enc]]
       /\ iv' = iv (start P s) /\ length iv' = 8
       /\ enc = xor_stream (keystream P (key s) iv') 0 addr_port
       /\ length size = 2
       /\ load_native (host_endian P) size
          = N.of_nat (length iv' + length enc))
  /\ (forall rest,
        is_open (local s) = true ->
        has_room 12 (local s) ->
        stream_of (local s) = e2e_greeting ++ e2e_request ++ rest ->
        exists size iv' enc,
          wcalls (remote (start P s))
          = wcalls (remote s) ++ [[size; iv'; enc]]
          /\ length iv' = 8
          /\ length enc = length (lit "127.0.0.1:80")
          /\ load_native (host_endian P) size
             = N.of_nat (8 + length (lit "127.0.0.1:80")))
  /\ (forall s1 addr_port,
        do_local_socks5 P s = (s1, Ok (true, addr_port)) ->
        let iv' := iv (start P s) in
        let enc := xor_stream (keystream P (key s) iv') 0 addr_port in
        let size :=
          store_native16 (host_endian P)
                         (to_uint16 (length iv' + length enc)) in
        is_open (remote (start P s)) = true
        /\ sent (remote (start P s))
           = sent (remote s)
             ++ match out_room (remote s) with
                | None => size ++ iv' ++ enc
                | Some r => firstn r (size ++ iv' ++ enc)
                end).
Proof.
  intros Hiv Hc Hv6.
  assert (A : forall s1 addr_port,
     do_local_socks5 P s = (s1, Ok (true, addr_port)) ->
     exists size iv' enc,
       wcalls (remote (start P s)) = wcalls (remote s) ++ [[size; iv'; enc]]
       /\ iv' = iv (start P s) /\ length iv' = 8
       /\ enc = xor_stream (keystream P (key s) iv') 0 addr_port
       /\ length size = 2
       /\ load_native (host_endian P) size
          = N.of_nat (length iv' + length enc)).
  { intros s1 addr_port E.
    destruct (start_after_handshake P s E Hc)
      as (S1 & _ & _ & _ & _ & _ & S7).
    pose proof (do_local_socks5_short P s Hv6 E) as Hshort.
    set (iv' := map (entropy s) (seq 0 (length (iv s)))) in *.
    set (enc := xor_stream (keystream P (key s) iv') 0 addr_port) in *.
    assert (Liv : length iv' = 8)
      by (subst iv'; now rewrite length_map, length_seq).
    assert (Lenc : length enc = length addr_port)
      by apply xor_stream_length.
    exists (store_native16 (host_endian P)
              (to_uint16 (length iv' + length enc))), iv', enc.
    repeat split; auto using store_native16_length.
    unfold to_uint16.
    rewrite N.mod_small by lia. apply load_store_native16. lia. }
  split; [exact A|].
  split.
  2:{ intros s1 addr_port E.
      destruct (start_after_handshake P s E Hc)
        as (S1 & _ & _ & _ & _ & S6 & _).
      pose proof (start_handshake_wire P s E Hc) as W.
      cbv zeta in *. rewrite S1. auto. }
  intros rest Ho Hroom Hstr.
  pose proof (local_after_init s Ho) as H0. rewrite Hstr in H0.
  destruct (@do_socks5_auth_accepts s s Byte.x05 Byte.x01 [Byte.x00]
              (e2e_request ++ rest) [] H0 eq_refl eq_refl)
    as (s1 & E1 & H1).
  { unfold has_room in *. destruct (out_room (local s)); cbn in *; lia. }
  destruct (@do_get_proxy_addr_v4 P s s1 Byte.x00 Byte.x7f Byte.x00
              Byte.x00 Byte.x01 Byte.x00 Byte.x50 rest _ H1)
    as (s2 & E2 & H2).
  { unfold has_room in *. destruct (out_room (local s)); cbn in *; lia. }
  assert (Haddr : addr_port_v4 P
                    [Byte.x7f; Byte.x00; Byte.x00; Byte.x01;
                     Byte.x00; Byte.x50]
                  = lit "127.0.0.1:80").
  { unfold addr_port_v4. destruct (host_endian P); vm_compute; reflexivity. }
  rewrite Haddr in E2.
  assert (E : do_local_socks5 P s = (s2, Ok (true, lit "127.0.0.1:80"))).
  { unfold do_local_socks5, bind. now rewrite E1. }
  destruct (A s2 _ E) as (size & iv' & enc & W & _ & Liv & Henc & _ & Hsz).
  exists size, iv', enc.
  assert (Lenc : length enc = length (lit "127.0.0.1:80"))
    by (rewrite Henc; apply xor_stream_length).
  repeat split; auto. rewrite Hsz, Liv, Lenc. reflexivity.
Qed.

Lemma hex_dump_length a : length (hex_dump a) <= 32.
Proof.
  unfold hex_dump.
  assert (H : length (firstn 16 a) <= 16) by (rewrite length_firstn; lia).
  revert H. generalize (firstn 16 a) as l. intros l Hl.
  assert (E : forall l' : list byte,
             length (flat_map (fun b => [hex_digit (Byte.to_N b / 16);
                                         hex_digit (Byte.to_N b mod 16)]) l')
             = 2 * length l').
  { induction l' as [|b l' IH]; cbn [flat_map length app]; lia. }
  rewrite E. lia.
Qed.

Lemma tunnel_frame_size_witness :
  exists size iv' enc,
    wcalls (remote (start demo e2e_session)) = [] ++ [[size; iv'; enc]]
    /\ length iv' = 8
    /\ length enc = 12
    /\ load_native LittleEndian size = 20%N.
Proof.
  assert (H6 : forall a, length (address_v6_to_string demo a) <= 45)
    by (intros a; change (length (hex_dump a) <= 45);
        pose proof (hex_dump_length a); lia).
  exact (proj1 (proj2 (@tunnel_frame_size demo e2e_session eq_refl eq_refl
                         H6))
               [] eq_refl I eq_refl).
Defined.

(** C5.  Abort before forwarding.  Whenever the SOCKS5 front end does not
    succeed (a read throws, the greeting offers no acceptable method, or
    the request is refused), [start] leaves the remote socket exactly as
    it was (never opened, nothing written), attempts no connect and
    spawns no coroutine.  This is the case in particular for every
    complete greeting that does not offer method 0x00, such as one that
    offers only 0x02: it is refused without a reply. *)
Theorem abort_before_forwarding (P : Platform) :
  (forall s,
     setup_ok P s = false ->
     remote (start P s) = remote s
     /\ connects (start P s) = connects s
     /\ spawned (start P s) = spawned s)
  /\ (forall s ver n methods rest,
        is_open (local s) = true ->
        stream_of (local s) = ver :: n :: methods ++ rest ->
        length methods = Byte.to_nat n ->
        existsb (Byte.eqb constant.AUTH_NO_AUTH) methods = false ->
        setup_ok P s = false
        /\ sent (local (start P s)) = sent (local s)
        /\ sent (remote (start P s)) = sent (remote s)
        /\ is_open (remote (start P s)) = is_open (remote s)
        /\ connects (start P s) = connects s
        /\ spawned (start P s) = spawned s).
Proof.
  assert (A : forall s,
     setup_ok P s = false ->
     remote (start P s) = remote s
     /\ connects (start P s) = connects s
     /\ spawned (start P s) = spawned s).
  { intros s Hf. rewrite (start_aborts P s Hf).
    destruct (local_step_frame (local_only_do_local_socks5 P s))
      as (Hr & _ & _ & _ & _ & _ & _ & Hc & Hsp).
    auto. }
  split; [exact A|].
  intros s ver n methods rest Ho Hstr Hlen Hex.
  pose proof (local_after_init s Ho) as H0. rewrite Hstr in H0.
  destruct (@do_socks5_auth_rejects s s ver n methods rest [] H0 Hlen Hex)
    as (s1 & E1 & H1).
  assert (E : do_local_socks5 P s = (s1, Ok (false, []))).
  { unfold do_local_socks5, bind. now rewrite E1. }
  assert (Hf : setup_ok P s = false) by (unfold setup_ok; now rewrite E).
  destruct (A s Hf) as (Hr & Hc & Hsp).
  rewrite Hr. repeat split; auto.
  rewrite (start_aborts P s Hf), E. cbn [fst].
  destruct H1 as (_ & _ & _ & Hsent & _). now rewrite Hsent, app_nil_r.
Qed.

Lemma abort_before_forwarding_witness :
  let s := new_session (peer_sends [[Byte.x05; Byte.x01; Byte.x02]])
                       (peer_sends []) [] (fun _ => Byte.x00) None in
  setup_ok demo s = false
  /\ sent (local (start demo s)) = sent (local s)
  /\ sent (remote (start demo s)) = sent (remote s)
  /\ is_open (remote (start demo s)) = is_open (remote s)
  /\ connects (start demo s) = connects s
  /\ spawned (start demo s) = spawned s.
Proof.
  exact (proj2 (abort_before_forwarding demo)
               (new_session (peer_sends [[Byte.x05; Byte.x01; Byte.x02]])
                            (peer_sends []) [] (fun _ => Byte.x00) None)
               Byte.x05 Byte.x01 [Byte.x02] [] eq_refl eq_refl eq_refl
               eq_refl).
Defined.

(** C8.  Domain names up to the longest.  A CONNECT request for a domain
    name whose length octet is 255, followed by 255 octets of name and two
    of port, is accepted: the fixed reply is written and the result is the
    whole name, a colon and the port in decimal.  And whenever the length
    octet of a domain request announces more than the stream still holds
    (less than name plus port, so in particular less than the name), the
    read throws the stream's error: no reply is written and no address,
    truncated or not, is returned. *)
Theorem domain_length_boundary (P : Platform) (s : client_session) :
  is_open (local s) = true ->
  (forall rsv domain p0 p1 rest,
     stream_of (local s)
     = constant.SOCKS5_VERSION :: constant.CONN_TCP :: rsv
       :: constant.ADDR_DOMAIN :: Byte.xff :: domain ++ p0 :: p1 :: rest ->
     length domain = 255 ->
     has_room (length reply) (local s) ->
     exists s',
       do_get_proxy_addr P s
       = (s', Ok (true,
                  domain ++ lit ":"
                  ++ to_string (256 * Byte.to_N p0 + Byte.to_N p1)%N))
       /\ sent (local s') = sent (local s) ++ reply
       /\ stream_of (local s') = rest)
  /\ (forall rsv len avail,
        stream_of (local s)
        = constant.SOCKS5_VERSION :: constant.CONN_TCP :: rsv
          :: constant.ADDR_DOMAIN :: len :: avail ->
        length avail < Byte.to_nat len + 2 ->
        exists s',
          do_get_proxy_addr P s = (s', Err (in_end (local s)))
          /\ sent (local s') = sent (local s)).
Proof.
  intros Ho. pose proof (local_after_init s Ho) as H0. split.
  - intros rsv domain p0 p1 rest Hstr Hlen Hroom. rewrite Hstr in H0.
    destruct (@do_get_proxy_addr_domain P s s rsv Byte.xff domain p0 p1
                rest [] H0 Hlen Hroom) as (s' & E & H').
    exists s'. destruct H' as (_ & _ & Hs & Hsent & _). auto.
  - intros rsv len avail Hstr Hlen. rewrite Hstr in H0.
    destruct (@do_get_proxy_addr_domain_truncated P s s rsv len avail []
                H0 Hlen) as (s' & E & H').
    exists s'. destruct H' as (_ & _ & _ & Hsent & _).
    rewrite app_nil_r in Hsent. auto.
Qed.

Lemma domain_length_boundary_witness :
  let name := repeat Byte.x61 255 in
  let full :=
    with_local
      (peer_sends [[Byte.x05; Byte.x01; Byte.x00; Byte.x03; Byte.xff];
                   name ++ [Byte.x01; Byte.xbb]]) e2e_session in
  let cut :=
    with_local
      (peer_sends [[Byte.x05; Byte.x01; Byte.x00; Byte.x03; Byte.xff];
                   firstn 200 name]) e2e_session in
  (exists s',
     do_get_proxy_addr demo full
     = (s', Ok (true, name ++ lit ":" ++ to_string 443))
     /\ sent (local s') = reply
     /\ stream_of (local s') = [])
  /\ (exists s',
        do_get_proxy_addr demo cut = (s', Err eof)
        /\ sent (local s') = []).
Proof.
  split.
  - exact (proj1 (@domain_length_boundary demo
                    (with_local
                       (peer_sends
                          [[Byte.x05; Byte.x01; Byte.x00; Byte.x03; Byte.xff];
                           repeat Byte.x61 255 ++ [Byte.x01; Byte.xbb]])
                       e2e_session) eq_refl)
                 Byte.x00 (repeat Byte.x61 255) Byte.x01 Byte.xbb []
                 eq_refl eq_refl I).
  - exact (proj2 (@domain_length_boundary demo
                    (with_local
                       (peer_sends
                          [[Byte.x05; Byte.x01; Byte.x00; Byte.x03; Byte.xff];
                           firstn 200 (repeat Byte.x61 255)])
                       e2e_session) eq_refl)
                 Byte.x00 Byte.xff (firstn 200 (repeat Byte.x61 255))
                 eq_refl ltac:(vm_compute; lia)).
Defined.

(** C9.  The size field keeps the host's byte order.  [send_handshake]
    writes, as the first buffer of the frame, the two octets of the
    [uint16_t] as they lie in memory: low octet first on a little-endian
    host, high octet first on a big-endian one, with no conversion in
    between; so the same session puts different octets on the wire on the
    two kinds of host.  The port of a SOCKS5 request, which goes through
    [big_to_native], is by contrast the same number on both. *)
Theorem size_field_native_order (P : Platform) (s : client_session)
  (addr_port : list byte) :
  is_open (remote s) = true ->
  let size := to_uint16 (length (iv s) + length addr_port) in
  (exists ivb enc,
     wcalls (remote (fst (send_handshake P addr_port s)))
     = wcalls (remote s)
       ++ [[match host_endian P with
            | LittleEndian => [byte_of_N size; byte_of_N (size / 256)]
            | BigEndian => [byte_of_N (size / 256); byte_of_N size]
            end; ivb; enc]]
     /\ length ivb = length (iv s) /\ length enc = length addr_port)
  /\ (forall p0 p1,
        big_to_native16 (host_endian P) (load_native (host_endian P) [p0; p1])
        = (256 * Byte.to_N p0 + Byte.to_N p1)%N).
Proof.
  intros Ho size. split; [|intros; apply big_to_native16_load].
  pose proof (send_handshake_state P addr_port s) as St. cbv zeta in St.
  destruct St as (_ & _ & _ & _ & _ & _ & _ & _ & W).
  rewrite (W Ho). unfold tunnel_frame.
  exists (fresh_iv s), (encrypted_addr P addr_port s).
  rewrite fresh_iv_length, encrypted_addr_length.
  split; [|split; reflexivity].
  fold size. destruct (host_endian P); reflexivity.
Qed.

Lemma size_field_native_order_witness :
  let s := connected e2e_session in
  let a := lit "127.0.0.1:80" in
  (exists ivb enc,
     wcalls (remote (fst (send_handshake demo a s)))
     = [] ++ [[[Byte.x14; Byte.x00]; ivb; enc]]
     /\ length ivb = 8 /\ length enc = 12)
  /\ (exists ivb enc,
        wcalls (remote (fst (send_handshake demo_be a s)))
        = [] ++ [[[Byte.x00; Byte.x14]; ivb; enc]]
        /\ length ivb = 8 /\ length enc = 12).
Proof.
  split.
  - exact (proj1 (@size_field_native_order demo (connected e2e_session)
                    (lit "127.0.0.1:80") eq_refl)).
  - exact (proj1 (@size_field_native_order demo_be (connected e2e_session)
                    (lit "127.0.0.1:80") eq_refl)).
Defined.

(** C3 (what the code does).  For a CONNECT request with address type
    IPv6, [do_get_proxy_addr] hands the address printer the sixteen
    octets in REVERSE wire order ([std::reverse] before
    [make_address_v6]); only the port is decoded as the big-endian number
    on the wire. *)
Theorem ipv6_octets_reversed (P : Platform) (s : client_session)
  (rsv : byte) (a : list byte) (p0 p1 : byte) (rest : list byte) :
  is_open (local s) = true ->
  has_room (length reply) (local s) ->
  length a = 16 ->
  stream_of (local s)
  = constant.SOCKS5_VERSION :: constant.CONN_TCP :: rsv
    :: constant.ADDR_IPV6 :: a ++ p0 :: p1 :: rest ->
  exists s',
    do_get_proxy_addr P s
    = (s', Ok (true,
               address_v6_to_string P (rev a) ++ lit ":"
               ++ to_string (256 * Byte.to_N p0 + Byte.to_N p1)%N)).
Proof.
  intros Ho Hroom Hlen Hstr.
  pose proof (local_after_init s Ho) as H0. rewrite Hstr in H0.
  destruct (@do_get_proxy_addr_v6 P s s rsv a p0 p1 rest [] H0 Hlen Hroom)
    as (s' & E & _).
  eauto.
Qed.

(** The request for [::1] port 80: the text tunnelled to the relay names
    the address [100::], whose first octet is 1. *)
Lemma ipv6_octets_reversed_witness :
  let loopback := repeat Byte.x00 15 ++ [Byte.x01] in
  let s :=
    with_local
      (peer_sends [[Byte.x05; Byte.x01; Byte.x00; Byte.x04]
                   ++ loopback ++ [Byte.x00; Byte.x50]]) e2e_session in
  exists s',
    do_get_proxy_addr demo s
    = (s', Ok (true, lit "01000000000000000000000000000000:80")).
Proof.
  exact (@ipv6_octets_reversed demo
           (with_local
              (peer_sends [[Byte.x05; Byte.x01; Byte.x00; Byte.x04]
                           ++ (repeat Byte.x00 15 ++ [Byte.x01])
                           ++ [Byte.x00; Byte.x50]]) e2e_session)
           Byte.x00 (repeat Byte.x00 15 ++ [Byte.x01]) Byte.x00 Byte.x50 []
           eq_refl I eq_refl eq_refl).
Defined.

(** C7 (what the code does).  [do_socks5_auth] never looks at the version
    octet of the greeting: a complete greeting that offers method 0x00 is
    accepted and answered with [5, 0] whatever its first octet is. *)
Theorem greeting_version_unchecked (s : client_session) (ver n : byte)
  (methods rest : list byte) :
  is_open (local s) = true ->
  has_room 2 (local s) ->
  stream_of (local s) = ver :: n :: methods ++ rest ->
  length methods = Byte.to_nat n ->
  existsb (Byte.eqb constant.AUTH_NO_AUTH) methods = true ->
  exists s',
    do_socks5_auth s = (s', Ok true)
    /\ sent (local s') = sent (local s) ++ [Byte.x05; Byte.x00]
    /\ stream_of (local s') = rest.
Proof.
  intros Ho Hroom Hstr Hlen Hex.
  pose proof (local_after_init s Ho) as H0. rewrite Hstr in H0.
  destruct (@do_socks5_auth_accepts s s ver n methods rest [] H0 Hlen Hex
              Hroom) as (s' & E & H').
  exists s'. destruct H' as (_ & _ & Hs & Hsent & _). auto.
Qed.

(** A SOCKS4 greeting octet in front: accepted as SOCKS5. *)
Lemma greeting_version_unchecked_witness :
  let s :=
    with_local (peer_sends [[Byte.x04; Byte.x01; Byte.x00]]) e2e_session in
  exists s',
    do_socks5_auth s = (s', Ok true)
    /\ sent (local s') = [Byte.x05; Byte.x00]
    /\ stream_of (local s') = [].
Proof.
  exact (@greeting_version_unchecked
           (with_local (peer_sends [[Byte.x04; Byte.x01; Byte.x00]])
                       e2e_session)
           Byte.x04 Byte.x01 [Byte.x00] [] eq_refl I eq_refl eq_refl
           eq_refl).
Defined.

(** ** The forwarding coroutines *)

Lemma async_read_ok_inv want s s' d :
  async_read want s = (s', d, None) ->
  is_open s = true
  /\ d = firstn want (stream_of s)
  /\ want <= length (stream_of s)
  /\ stream_of s' = skipn want (stream_of s)
  /\ is_open s' = true /\ sent s' = sent s /\ wcalls s' = wcalls s.
Proof.
  unfold async_read, stream_of.
  destruct (is_open s) eqn:Ho; cbn [negb]; [|discriminate].
  destruct (read_until_stream want (inbox s)) as [E1 E2]. rewrite E1.
  destruct (Nat.leb_spec want (length (concat (inbox s))));
    [|discriminate].
  intros E; inversion E; subst. cbn. rewrite E2. auto 10.
Qed.

(** On an open socket the unconditioned read takes the whole stream and
    throws the error that ends it. *)
Lemma async_read_to_error_open s :
  is_open s = true ->
  async_read_to_error s = (set_inbox [] s, stream_of s, in_end s).
Proof. intros Ho. unfold async_read_to_error. now rewrite Ho. Qed.

(** A round never comes back: it is left by the error of its read, and
    by then only the socket read from has changed. *)
Lemma forward_local_to_remote_round_throws P s :
  forward_local_to_remote_round P s
  = (with_local (fst (fst (async_read_to_error (local s)))) s,
     Err (snd (async_read_to_error (local s)))).
Proof.
  unfold forward_local_to_remote_round, bind, read_local_to_error.
  now destruct (async_read_to_error (local s)) as [[l d] ec].
Qed.

Lemma forward_remote_to_local_round_throws P s :
  forward_remote_to_local_round P s
  = (with_remote (fst (fst (async_read_to_error (remote s)))) s,
     Err (snd (async_read_to_error (remote s)))).
Proof.
  unfold forward_remote_to_local_round, bind, read_remote_to_error.
  now destruct (async_read_to_error (remote s)) as [[r d] ec].
Qed.

(** Both coroutines are over after the first read. *)
Lemma do_forward_local_to_remote_unfold P fuel s :
  do_forward_local_to_remote P (S fuel) s
  = Some (close_both
            (with_local (fst (fst (async_read_to_error (local s)))) s)).
Proof.
  unfold do_forward_local_to_remote. cbn [forever].
  now rewrite forward_local_to_remote_round_throws.
Qed.

Lemma do_forward_remote_to_local_unfold P fuel s :
  do_forward_remote_to_local P (S fuel) s
  = Some (close_both
            (with_remote (fst (fst (async_read_to_error (remote s)))) s)).
Proof.
  unfold do_forward_remote_to_local. cbn [forever].
  now rewrite forward_remote_to_local_round_throws.
Qed.

Lemma close_both_closed s :
  is_open (local (close_both s)) = false
  /\ is_open (remote (close_both s)) = false.
Proof. split; reflexivity. Qed.

Lemma do_forward_local_to_remote_closes P fuel s s' :
  do_forward_local_to_remote P fuel s = Some s' ->
  is_open (local s') = false /\ is_open (remote s') = false.
Proof.
  unfold do_forward_local_to_remote.
  destruct (forever fuel _ s) as [[s1 e]|]; [|discriminate].
  intros E; inversion E; subst. apply close_both_closed.
Qed.

Lemma do_forward_remote_to_local_closes P fuel s s' :
  do_forward_remote_to_local P fuel s = Some s' ->
  is_open (local s') = false /\ is_open (remote s') = false.
Proof.
  unfold do_forward_remote_to_local.
  destruct (forever fuel _ s) as [[s1 e]|]; [|discriminate].
  intros E; inversion E; subst. apply close_both_closed.
Qed.

(** ** [pair]: one buffer per round *)

Lemma next_segment_some n segs data rest :
  0 < n ->
  next_segment n segs = Some (data, rest) ->
  0 < length data <= n /\ concat segs = data ++ concat rest.
Proof.
  intros Hn. induction segs as [|c segs IH]; cbn [next_segment];
    [discriminate|].
  destruct c as [|b c]; [exact IH|].
  destruct (Nat.leb_spec (length (b :: c)) n) as [Hle|Hgt];
    intros E; inversion E; subst; clear E.
  - cbn [concat length] in *. split; [lia|reflexivity].
  - rewrite length_firstn. cbn [concat]. rewrite app_assoc, firstn_skipn.
    split; [|reflexivity].
    destruct n; [lia|]. cbn [length] in *. lia.
Qed.

Lemma next_segment_none n segs :
  next_segment n segs = None -> concat segs = [].
Proof.
  induction segs as [|c segs IH]; cbn [next_segment]; auto.
  destruct c as [|b c]; [exact IH|].
  destruct (length (b :: c) <=? n); discriminate.
Qed.

Lemma async_read_some_ok n s s' data :
  0 < n ->
  async_read_some n s = (s', Ok data) ->
  0 < length data <= n
  /\ stream_of s = data ++ stream_of s'
  /\ is_open s' = is_open s.
Proof.
  intros Hn. unfold async_read_some, stream_of.
  destruct (is_open s) eqn:Ho; cbn [negb]; [|discriminate].
  destruct n; [lia|].
  destruct (next_segment (S n) (inbox s)) as [[d rest]|] eqn:E;
    [|discriminate].
  intros R; inversion R; subst. cbn.
  destruct (@next_segment_some _ _ _ _ Hn E). auto.
Qed.

Lemma async_read_some_open n s :
  is_open (fst (async_read_some n s)) = is_open s.
Proof.
  unfold async_read_some.
  destruct (is_open s) eqn:Ho; cbn [negb]; [|exact Ho].
  destruct n; [exact Ho|].
  destruct (next_segment (S n) (inbox s)) as [[d rest]|]; exact Ho.
Qed.

Lemma in_place_length n out (b : list byte) :
  n <= length b -> length (utility.in_place n out b) = length b.
Proof.
  intros Hn. unfold utility.in_place.
  rewrite length_app, length_skipn, length_firstn. lia.
Qed.

Section Pair.

Variable T : Type.
Variable transform : T -> list byte -> T * list byte.

(** [pair] closes neither socket, whatever makes it return. *)
Lemma pair_closes_nothing fuel st ec st' :
  utility.pair transform fuel st = Some (ec, st') ->
  is_open (utility.src st') = is_open (utility.src st)
  /\ is_open (utility.dst st') = is_open (utility.dst st).
Proof.
  revert st; induction fuel as [|fuel IH]; intros st; [discriminate|].
  cbn [utility.pair].
  pose proof (async_read_some_open (length (utility.buf st))
                (utility.src st)) as Hsrc.
  destruct (async_read_some _ (utility.src st)) as [src' [data|e]];
    cbn [fst] in Hsrc.
  - destruct (transform _ _) as [t' out].
    match goal with
    | |- context [async_write ?b ?d] =>
        pose proof (async_write_keeps b d) as K;
        destruct (async_write b d) as [dst' [e|]]
    end; cbn [fst] in K; destruct K as (_ & Hdst & _).
    + intros E; inversion E; subst. cbn. auto.
    + intros E. apply IH in E. cbn in E. destruct E. split; congruence.
  - intros E; inversion E; subst. cbn. auto.
Qed.

(** X15.  [pair] does not loop on a source whose stream ends.  A round
    that is completed has taken at least one octet off the source, so
    with a buffer that is not empty and a source that delivers [n] more
    octets and then ends (by end of file or by an error, as the stream
    of every scripted socket does; a peer that stays connected and sends
    nothing is not among them, and there the read does not come back),
    [pair] has returned an error code by round [n + 1], whatever the
    transform and whatever the sink accepts. *)
Lemma pair_returns fuel st :
  0 < length (utility.buf st) ->
  length (stream_of (utility.src st)) < fuel ->
  exists ec st', utility.pair transform fuel st = Some (ec, st').
Proof.
  revert st; induction fuel as [|fuel IH]; intros st Hb Hf; [lia|].
  cbn [utility.pair].
  destruct (async_read_some _ (utility.src st)) as [src' [data|e]] eqn:R;
    [|eauto].
  destruct (@async_read_some_ok _ _ _ _ Hb R) as (Hd & Hs & _).
  destruct (transform _ _) as [t' out].
  destruct (async_write _ _) as [dst' [e|]]; [eauto|].
  apply IH; cbn.
  - rewrite in_place_length; rewrite length_app, length_skipn; lia.
  - rewrite Hs, length_app in Hf. lia.
Qed.

(** X16.  Each round of [pair] passes to [async_write] one buffer,
    never empty and never longer than [buf]; [buf] keeps its size; and
    the octets passed to the sink are as many as were taken from the
    source, whatever the transform computes. *)
Lemma pair_one_buffer_per_round fuel st ec st' :
  0 < length (utility.buf st) ->
  is_open (utility.dst st) = true ->
  is_open (utility.src st) = true ->
  utility.pair transform fuel st = Some (ec, st') ->
  length (utility.buf st') = length (utility.buf st)
  /\ exists calls,
       wcalls (utility.dst st') = wcalls (utility.dst st) ++ calls
       /\ Forall (fun c => exists b,
                    c = [b] /\ 0 < length b <= length (utility.buf st))
                 calls
       /\ length (stream_of (utility.src st))
          = length (concat (concat calls))
            + length (stream_of (utility.src st')).
Proof.
  revert st; induction fuel as [|fuel IH]; intros st Hb Hod Hos;
    [discriminate|].
  cbn [utility.pair].
  destruct (async_read_some _ (utility.src st)) as [src' [data|e]] eqn:R.
  - destruct (@async_read_some_ok _ _ _ _ Hb R) as (Hd & Hs & Hos').
    destruct (transform _ _) as [t' out].
    set (buf1 := data ++ skipn (length data) (utility.buf st)) in *.
    assert (L1 : length buf1 = length (utility.buf st))
      by (subst buf1; rewrite length_app, length_skipn; lia).
    assert (L2 : length (utility.in_place (length data) out buf1)
                 = length (utility.buf st))
      by (rewrite in_place_length; lia).
    set (chunk := firstn (length data)
                    (utility.in_place (length data) out buf1)) in *.
    assert (Lc : length chunk = length data)
      by (subst chunk; rewrite length_firstn; lia).
    pose proof (async_write_keeps [chunk] (utility.dst st)) as K.
    destruct (async_write [chunk] (utility.dst st)) as [dst' [e|]];
      cbn [fst] in K; destruct K as (_ & Hod' & _ & Hw & _);
      specialize (Hw Hod).
    + intros E; inversion E; subst. cbn. split; [exact L2|].
      exists [[chunk]]. split; [exact Hw|]. split.
      * constructor; [|constructor]. exists chunk. split; auto. lia.
      * cbn. rewrite app_nil_r, Hs, length_app. lia.
    + intros E. apply IH in E; cbn; try congruence; try lia.
      cbn in E. destruct E as (Lb & calls & W & F & Hlen).
      split; [lia|]. exists ([chunk] :: calls). split; [|split].
      * rewrite W, Hw, <- app_assoc. reflexivity.
      * constructor.
        -- exists chunk. split; auto. lia.
        -- eapply Forall_impl; [|exact F]. cbn.
           intros c (b & -> & Hbl). exists b. split; auto. lia.
      * cbn [concat app]. rewrite !length_app, Hs, length_app. lia.
  - intros E; inversion E; subst. cbn. split; [reflexivity|].
    exists []. rewrite app_nil_r. split; [reflexivity|].
    split; [constructor|]. cbn.
    unfold async_read_some in R. rewrite Hos in R. cbn [negb] in R.
    destruct (length (utility.buf st)); [lia|].
    destruct (next_segment _ _) as [[d r]|] eqn:N; [discriminate|].
    inversion R; subst. apply next_segment_none in N.
    unfold stream_of. cbn. now rewrite N.
Qed.

End Pair.

(** C2 (what the code does).  The session's pump does not read one
    buffer's worth per round.  On an open local socket, whatever the
    peer sends before the stream ends -- however many octets, in however
    many segments -- [do_forward_local_to_remote] takes the whole stream
    into [buf] in its first round, transforms and writes none of it, and
    closes both sockets: the remote socket has received nothing and the
    cipher has not moved. *)
Theorem forward_reads_to_the_end (P : Platform) (s : client_session)
  (fuel : nat) :
  is_open (local s) = true ->
  exists s',
    do_forward_local_to_remote P (S fuel) s = Some s'
    /\ stream_of (local s') = []
    /\ sent (remote s') = sent (remote s)
    /\ wcalls (remote s') = wcalls (remote s)
    /\ encrypt s' = encrypt s
    /\ is_open (local s') = false /\ is_open (remote s') = false.
Proof.
  intros Ho. rewrite do_forward_local_to_remote_unfold.
  rewrite (async_read_to_error_open _ Ho).
  eexists. split; [reflexivity|]. cbn. auto 10.
Qed.

Lemma forward_reads_to_the_end_witness :
  let s :=
    with_local
      (peer_sends [[Byte.x61]; [Byte.x62; Byte.x63]]) e2e_session in
  exists s',
    do_forward_local_to_remote demo 1 s = Some s'
    /\ stream_of (local s') = []
    /\ sent (remote s') = []
    /\ wcalls (remote s') = []
    /\ encrypt s' = unkeyed
    /\ is_open (local s') = false /\ is_open (remote s') = false.
Proof.
  exact (@forward_reads_to_the_end demo
           (with_local (peer_sends [[Byte.x61]; [Byte.x62; Byte.x63]])
                       e2e_session)
           0 eq_refl).
Defined.

(** C6 (as stated, on [pair]).  A source that is at end of stream makes
    [pair] return [eof] to its caller with both sockets still open. *)
Lemma pair_returns_error_sockets_open :
  exists st',
    utility.pair (fun (t : unit) b => (t, b)) 1
      (utility.mk_pair_state tt (peer_sends []) (peer_sends [])
                             (repeat Byte.x00 4))
    = Some (eof, st')
    /\ is_open (utility.src st') = true
    /\ is_open (utility.dst st') = true.
Proof. eexists. split; [reflexivity|]. split; reflexivity. Qed.

(** C6 (amended).  The two coroutines of the session,
    [do_forward_local_to_remote] and [do_forward_remote_to_local], always
    return, and whenever one returns, whatever error ended its loop,
    both the local and the remote socket are closed and nothing is
    handed to the caller.  The stand-alone [pair] does neither: it
    returns the error code that ended its loop and leaves both sockets
    as open as it found them. *)
Theorem session_pumps_close_both (P : Platform) :
  (forall s,
     (exists s',
        do_forward_local_to_remote P (S (length (stream_of (local s)))) s
        = Some s')
     /\ (exists s',
           do_forward_remote_to_local P
             (S (length (stream_of (remote s)))) s = Some s'))
  /\ (forall fuel s s',
        do_forward_local_to_remote P fuel s = Some s'
        \/ do_forward_remote_to_local P fuel s = Some s' ->
        is_open (local s') = false /\ is_open (remote s') = false)
  /\ (forall (T : Type) (transform : T -> list byte -> T * list byte)
        fuel st ec st',
        utility.pair transform fuel st = Some (ec, st') ->
        is_open (utility.src st') = is_open (utility.src st)
        /\ is_open (utility.dst st') = is_open (utility.dst st)).
Proof.
  split; [|split].
  - intros s. split.
    + rewrite do_forward_local_to_remote_unfold. eauto.
    + rewrite do_forward_remote_to_local_unfold. eauto.
  - intros fuel s s' [E|E].
    + eapply do_forward_local_to_remote_closes; eauto.
    + eapply do_forward_remote_to_local_closes; eauto.
  - intros T transform fuel st ec st' E.
    eapply pair_closes_nothing; eauto.
Qed.

Lemma session_pumps_close_both_witness :
  let s := start demo e2e_session in
  (exists s', do_forward_local_to_remote demo 1 s = Some s')
  /\ (exists s', do_forward_remote_to_local demo 1 s = Some s').
Proof.
  exact (proj1 (@session_pumps_close_both demo)
               (start demo e2e_session)).
Defined.

(** ** The send cipher across handshake and forwarding *)

(** A front end that got as far as an address leaves the local socket
    open: its last step was the write of the reply. *)
Lemma write_local_open bufs s s' u :
  write_local bufs s = (s', Ok u) -> is_open (local s') = true.
Proof.
  unfold write_local, async_write.
  destruct (is_open (local s)); cbn [negb]; [|discriminate].
  destruct (out_room (local s)) as [k|];
    [destruct (length (concat bufs) <=? k)|];
    intros E; inversion E; subst; reflexivity.
Qed.

Lemma do_get_proxy_addr_open P s s' a :
  do_get_proxy_addr P s = (s', Ok (true, a)) -> is_open (local s') = true.
Proof.
  unfold do_get_proxy_addr, bind.
  destruct (read_local 4 s) as [s1 [request|e]]; [|discriminate].
  assert (Hno : ret (false, @nil byte) s1 = (s', Ok (true, a)) ->
                is_open (local s') = true)
    by (unfold ret; intros E; inversion E).
  assert (Hyes : forall s2 text,
            (write_local [reply];;; ret (true, text)) s2
            = (s', Ok (true, a)) ->
            is_open (local s') = true).
  { intros s2 text. unfold bind.
    destruct (write_local [reply] s2) as [s3 [u|e]] eqn:W; [|discriminate].
    apply write_local_open in W.
    unfold ret. intros E; inversion E; subst. exact W. }
  destruct (negb _); [exact Hno|].
  destruct (negb _); [exact Hno|].
  destruct (Byte.eqb _ constant.ADDR_IPV4).
  { destruct (read_local _ s1) as [s2 [ap_buf|e]]; [|discriminate].
    unfold ret at 1. apply Hyes. }
  destruct (Byte.eqb _ constant.ADDR_IPV6).
  { destruct (read_local _ s1) as [s2 [ap_buf|e]]; [|discriminate].
    unfold ret at 1. apply Hyes. }
  destruct (Byte.eqb _ constant.ADDR_DOMAIN).
  { destruct (read_local 1 s1) as [s2 [len|e]]; [|discriminate].
    destruct (read_local _ s2) as [s3 [ap_buf|e]]; [|discriminate].
    unfold ret at 1. apply Hyes. }
  unfold ret at 1. exact Hno.
Qed.

Lemma do_local_socks5_open P s s' a :
  do_local_socks5 P s = (s', Ok (true, a)) -> is_open (local s') = true.
Proof.
  unfold do_local_socks5, bind.
  destruct (do_socks5_auth s) as [s1 [[|]|e]]; [| |discriminate].
  - apply do_get_proxy_addr_open.
  - unfold ret. intros E; inversion E.
Qed.

(** C10 (what the code does).  One keystream for handshake and
    forwarding, of which forwarding uses nothing.  In every session that
    gets through the front end and the connect, the address in the
    handshake frame is the "host:port" text xored with keystream
    positions [0 .. len-1] of the freshly keyed send cipher, and [start]
    leaves that cipher at position [len(addr_port)]: [ProcessString] on
    it would xor a chunk with the keystream from position
    [len(addr_port)] on, so that frame address and chunk together would
    be the transform of "host:port" followed by the chunk from position
    zero.  But [do_forward_local_to_remote] never gets that far: it
    returns after its first read with the whole client stream taken, the
    send cipher still at position [len(addr_port)], and not one write on
    the remote socket after the frame.  No chunk from the local client
    is encrypted at any offset. *)
Theorem keystream_shared_with_handshake (P : Platform)
  (s s1 : client_session) (addr_port : list byte) :
  do_local_socks5 P s = (s1, Ok (true, addr_port)) ->
  connect_outcome s = None ->
  let s' := start P s in
  let ks := keystream P (key s) (iv s') in
  (exists size,
     wcalls (remote s')
     = wcalls (remote s) ++ [[size; iv s'; xor_stream ks 0 addr_port]])
  /\ encrypt s' = mk_cipher (key s) (iv s') (length addr_port)
  /\ (forall chunk,
        snd (ProcessString P (encrypt s') chunk)
        = xor_stream ks (length addr_port) chunk
        /\ xor_stream ks 0 addr_port
           ++ xor_stream ks (length addr_port) chunk
           = xor_stream ks 0 (addr_port ++ chunk))
  /\ (forall fuel,
        exists s_end,
          do_forward_local_to_remote P (S fuel) s' = Some s_end
          /\ stream_of (local s_end) = []
          /\ encrypt s_end = encrypt s'
          /\ wcalls (remote s_end) = wcalls (remote s')
          /\ sent (remote s_end) = sent (remote s')).
Proof.
  intros E Hc s' ks.
  destruct (start_after_handshake P s E Hc)
    as (Hiv & Henc & _ & Hl & _ & _ & Hw).
  fold s' in Hiv, Henc, Hl, Hw.
  assert (Hks : ks = keystream P (key s)
                       (map (entropy s) (seq 0 (length (iv s)))))
    by (subst ks; now rewrite Hiv).
  assert (Hol : is_open (local s') = true)
    by (rewrite Hl; exact (do_local_socks5_open P s E)).
  split; [|split; [|split]].
  - eexists. rewrite Hw, Hiv, Hks. reflexivity.
  - now rewrite Henc, Hiv.
  - intros chunk. split.
    + rewrite Henc, Hks. reflexivity.
    + now rewrite xor_stream_app.
  - intros fuel. rewrite do_forward_local_to_remote_unfold.
    rewrite (async_read_to_error_open _ Hol).
    eexists. split; [reflexivity|]. cbn. auto.
Qed.

(** The end-to-end exchange followed by the payload "hello!": all six
    octets are taken, none is encrypted or sent. *)
Lemma keystream_shared_with_handshake_witness :
  let s' := start demo e2e_session_payload in
  let ks := keystream demo (key e2e_session_payload) (iv s') in
  stream_of (local s') = lit "hello!"
  /\ encrypt s'
     = mk_cipher (key e2e_session_payload) (iv s')
                 (length (lit "127.0.0.1:80"))
  /\ exists s_end,
       do_forward_local_to_remote demo 1 s' = Some s_end
       /\ stream_of (local s_end) = []
       /\ encrypt s_end = encrypt s'
       /\ wcalls (remote s_end) = wcalls (remote s')
       /\ sent (remote s_end) = sent (remote s').
Proof.
  assert (E : do_local_socks5 demo e2e_session_payload
              = (fst (do_local_socks5 demo e2e_session_payload),
                 Ok (true, lit "127.0.0.1:80")))
    by (vm_compute; reflexivity).
  assert (S : stream_of (local (start demo e2e_session_payload))
              = lit "hello!")
    by (vm_compute; reflexivity).
  pose proof (@keystream_shared_with_handshake demo e2e_session_payload
                (fst (do_local_socks5 demo e2e_session_payload))
                (lit "127.0.0.1:80") E eq_refl) as (_ & H2 & _ & H4).
  exact (conj S (conj H2 (H4 0))).
Defined.

(** * Further properties of the code *)

(** ** The stand-alone front end [detail::do_local_socks5] *)

Lemma sock_after_init l :
  is_open l = true -> sock_after l l (stream_of l) [].
Proof.
  intros Ho. unfold sock_after. rewrite app_nil_r. repeat split; auto.
Qed.

Lemma utility_read_enough n l0 st str w :
  sock_after l0 (fst st) str w ->
  n <= length str ->
  exists l',
    utility.read n st = ((l', snd st), Ok (firstn n str))
    /\ sock_after l0 l' (skipn n str) w.
Proof.
  intros (Ho & Hstr & Hsnt & Hend & Hroom) Hn.
  destruct (@async_read_enough n (fst st) Ho) as (l & E & F);
    [rewrite Hstr; exact Hn|].
  destruct F as (F1 & F2 & F3 & F4 & F5 & F6 & F7).
  exists l. unfold utility.read. rewrite E, Hstr.
  split; [reflexivity|].
  unfold sock_after. repeat split; try congruence.
  intros m Hm. specialize (Hroom m Hm).
  unfold has_room in *. now rewrite F4.
Qed.

Lemma utility_read_short n l0 st str w :
  sock_after l0 (fst st) str w ->
  length str < n ->
  exists l',
    utility.read n st = ((l', snd st), Err (in_end l0))
    /\ sock_after l0 l' [] w.
Proof.
  intros (Ho & Hstr & Hsnt & Hend & Hroom) Hn.
  destruct (@async_read_short n (fst st) Ho) as (l & E & F);
    [rewrite Hstr; exact Hn|].
  destruct F as (F1 & F2 & F3 & F4 & F5 & F6 & F7).
  exists l. unfold utility.read. rewrite E, Hend.
  split; [reflexivity|].
  unfold sock_after. repeat split; try congruence.
  intros m Hm. specialize (Hroom m Hm).
  unfold has_room in *. now rewrite F4.
Qed.

Lemma utility_write_ok bufs l0 st str w :
  sock_after l0 (fst st) str w ->
  has_room (length (w ++ concat bufs)) l0 ->
  exists l',
    utility.write bufs st = ((l', snd st), Ok tt)
    /\ sock_after l0 l' str (w ++ concat bufs).
Proof.
  intros (Ho & Hstr & Hsnt & Hend & Hroom) Hr.
  rewrite length_app in Hr.
  assert (Hr' : has_room (length (concat bufs)) (fst st))
    by (apply Hroom; exact Hr).
  destruct (@async_write_ok bufs (fst st) Ho Hr') as (l & E & F).
  destruct F as (F1 & F2 & F3 & F4 & F5 & F6 & F7).
  exists l. unfold utility.write. rewrite E.
  split; [reflexivity|].
  unfold sock_after, stream_of in *. repeat split; try congruence.
  - rewrite F1, Hsnt. now rewrite app_assoc.
  - intros m Hm. apply F7, Hroom.
    rewrite length_app in Hm. now rewrite Nat.add_assoc.
Qed.

Lemma byte_eqb_neq (x y : byte) : x <> y -> Byte.eqb x y = false.
Proof.
  intros Hne. destruct (Byte.eqb x y) eqn:E; [|reflexivity].
  apply Byte.byte_dec_bl in E. contradiction.
Qed.

Lemma min_temp_size (b : byte) k :
  k <= 2 -> Nat.min (Byte.to_nat b + k) utility.temp_size = Byte.to_nat b + k.
Proof.
  intros Hk. pose proof (Byte.to_nat_bounded b).
  unfold utility.temp_size. lia.
Qed.

(** One step of the [try] block: a read that finds its octets. *)
Ltac utility_read n H l' E H' :=
  match goal with
  | |- context [utility.read ?m (?l, ?res)] =>
      destruct (@utility_read_enough n _ (l, res) _ _ H) as (l' & E & H');
      [ try (cbn [length]; lia) | ]
  end.

(** X1.  The stand-alone front end [detail::do_local_socks5] hands back
    the request as it came off the wire.  For every complete greeting
    (whatever its version octet and whatever methods it offers) followed
    by a complete CONNECT request (whatever its version octet) for an
    IPv4 address, an IPv6 address or a domain name, no error is reported
    and [result] is the address type followed by the address and port
    octets in wire order, the IPv6 octets included; the client has been
    sent [5, 0] and the fixed ten-octet reply, and nothing beyond the
    request has been read. *)
Theorem utility_returns_wire_octets (l : socket) (ver n : byte)
  (methods : list byte) (rver rsv atyp : byte) (payload rest : list byte) :
  is_open l = true ->
  has_room 12 l ->
  stream_of l
  = ver :: n :: methods
    ++ rver :: constant.CONN_TCP :: rsv :: atyp :: payload ++ rest ->
  length methods = Byte.to_nat n ->
  wire_address atyp payload ->
  exists l',
    utility.do_local_socks5 l = (l', None, atyp :: payload)
    /\ sent l' = sent l ++ [Byte.x05; Byte.x00] ++ reply
    /\ stream_of l' = rest.
Proof.
  intros Ho Hroom Hstr Hlen Hw.
  pose proof (@sock_after_init l Ho) as H0. rewrite Hstr in H0.
  unfold utility.do_local_socks5, utility.do_local_socks5_try.
  unfold bind at 1. utility_read 2 H0 l1 E1 H1.
  rewrite E1. cbn [firstn skipn nth snd] in *.
  unfold bind at 1.
  pose proof (min_temp_size n (k := 0) ltac:(lia)) as Hmin.
  rewrite Nat.add_0_r in Hmin. rewrite Hmin.
  destruct (@utility_read_enough (Byte.to_nat n) l (l1, []) _ _ H1)
    as (l2 & E2 & H2); [rewrite length_app; lia|].
  rewrite E2. rewrite skipn_app_exact in H2 by auto. cbn [snd].
  unfold bind at 1.
  destruct (@utility_write_ok
              [[constant.SOCKS5_VERSION; constant.AUTH_NO_AUTH]]
              l (l2, []) _ _ H2) as (l3 & E3 & H3).
  { unfold has_room in *. destruct (out_room l); cbn in *; lia. }
  rewrite E3. cbn [snd app concat] in *.
  unfold bind at 1. utility_read 4 H3 l4 E4 H4.
  rewrite E4. cbn [firstn skipn nth snd] in *.
  change (Byte.eqb constant.CONN_TCP constant.CONN_TCP) with true.
  cbn [negb].
  unfold bind at 1. unfold utility.push_back at 1. cbn [fst snd app].
  assert (Hfin : forall l5 res,
            sock_after l l5 rest [Byte.x05; Byte.x00] ->
            exists l',
              (let (p, r) := utility.write [reply] (l5, res) in
               let (l', res') := p in
               match r with
               | Ok _ => (l', None, res')
               | Err ec => (l', Some ec, res')
               end) = (l', None, res)
              /\ sent l' = sent l ++ [Byte.x05; Byte.x00] ++ reply
              /\ stream_of l' = rest).
  { intros l5 res H5.
    destruct (@utility_write_ok [reply] l (l5, res) _ _ H5)
      as (l6 & E6 & H6).
    { unfold has_room in *. destruct (out_room l); cbn in *; lia. }
    rewrite E6. exists l6. cbn [concat] in H6. rewrite app_nil_r in H6.
    destruct H6 as (_ & Hs & Hsent & _). auto. }
  destruct Hw as [[-> Hp]|[[-> Hp]|[-> (len & name_port & -> & Hp)]]];
    eqb_consts; unfold bind; cbv beta.
  - change (Nat.min (32 / 8 + 2) utility.temp_size) with 6.
    change (32 / 8 + 2) with 6.
    destruct (@utility_read_enough 6 l (l4, [constant.ADDR_IPV4]) _ _ H4)
      as (l5 & E5 & H5); [rewrite length_app; lia|].
    rewrite E5. rewrite firstn_app_exact in * by auto.
    rewrite skipn_app_exact in H5 by auto.
    unfold utility.push_back at 1. cbn [fst snd].
    rewrite firstn_all2 by lia.
    apply (Hfin l5 _ H5).
  - change (Nat.min (128 / 8 + 2) utility.temp_size) with 18.
    change (128 / 8 + 2) with 18.
    destruct (@utility_read_enough 18 l (l4, [constant.ADDR_IPV6]) _ _ H4)
      as (l5 & E5 & H5); [rewrite length_app; lia|].
    rewrite E5. rewrite firstn_app_exact in * by auto.
    rewrite skipn_app_exact in H5 by auto.
    unfold utility.push_back at 1. cbn [fst snd].
    rewrite firstn_all2 by lia.
    apply (Hfin l5 _ H5).
  - destruct (@utility_read_enough 1 l (l4, [constant.ADDR_DOMAIN]) _ _ H4)
      as (l5 & E5 & H5); [cbn [length app]; lia|].
    rewrite E5. cbn [firstn skipn nth app snd] in *.
    unfold utility.push_back at 1. cbn [fst snd app].
    rewrite (min_temp_size len (k := 2)) by lia.
    destruct (@utility_read_enough (Byte.to_nat len + 2) l
                (l5, [constant.ADDR_DOMAIN; len]) _ _ H5)
      as (l6 & E6 & H6); [rewrite length_app; lia|].
    rewrite E6. rewrite firstn_app_exact in * by auto.
    rewrite skipn_app_exact in H6 by auto.
    unfold utility.push_back at 1. cbn [fst snd app].
    rewrite firstn_all2 by lia.
    apply (Hfin l6 _ H6).
Qed.

(** A greeting with version 4 that offers only method 2, then a request
    with version 9 for [::1] port 80: accepted, octets kept in order. *)
Lemma utility_returns_wire_octets_witness :
  let loopback := repeat Byte.x00 15 ++ [Byte.x01] in
  exists l',
    utility.do_local_socks5
      (peer_sends [[Byte.x04; Byte.x01; Byte.x02];
                   [Byte.x09; Byte.x01; Byte.x00; Byte.x04]
                   ++ loopback ++ [Byte.x00; Byte.x50]])
    = (l', None, Byte.x04 :: loopback ++ [Byte.x00; Byte.x50])
    /\ sent l' = [] ++ [Byte.x05; Byte.x00] ++ reply
    /\ stream_of l' = [].
Proof.
  exact (@utility_returns_wire_octets
           (peer_sends [[Byte.x04; Byte.x01; Byte.x02];
                        [Byte.x09; Byte.x01; Byte.x00; Byte.x04]
                        ++ (repeat Byte.x00 15 ++ [Byte.x01])
                        ++ [Byte.x00; Byte.x50]])
           Byte.x04 Byte.x01 [Byte.x02] Byte.x09 Byte.x00 Byte.x04
           ((repeat Byte.x00 15 ++ [Byte.x01]) ++ [Byte.x00; Byte.x50]) []
           eq_refl I eq_refl eq_refl
           (or_intror (or_introl (conj eq_refl eq_refl)))).
Defined.

(** X2.  What the stand-alone front end refuses, and when.  After a
    complete greeting (already answered with [5, 0]) and a complete
    four-octet request header: a command other than CONNECT ends with
    the error [cmd_not_supported] and an empty [result]; CONNECT with an
    address type other than 1, 3 or 4 ends with [address_not_supported]
    and a [result] that holds only the address type.  In both cases the
    client has been sent the [5, 0] and nothing else, and nothing after
    the header has been read. *)
Theorem utility_refusals (l : socket) (ver n : byte) (methods : list byte)
  (rver cmd rsv atyp : byte) (rest : list byte) :
  is_open l = true ->
  has_room 2 l ->
  stream_of l = ver :: n :: methods ++ rver :: cmd :: rsv :: atyp :: rest ->
  length methods = Byte.to_nat n ->
  (cmd <> constant.CONN_TCP ->
   exists l',
     utility.do_local_socks5 l = (l', Some cmd_not_supported, [])
     /\ sent l' = sent l ++ [Byte.x05; Byte.x00]
     /\ stream_of l' = rest)
  /\ (cmd = constant.CONN_TCP ->
      atyp <> constant.ADDR_IPV4 ->
      atyp <> constant.ADDR_IPV6 ->
      atyp <> constant.ADDR_DOMAIN ->
      exists l',
        utility.do_local_socks5 l = (l', Some address_not_supported, [atyp])
        /\ sent l' = sent l ++ [Byte.x05; Byte.x00]
        /\ stream_of l' = rest).
Proof.
  intros Ho Hroom Hstr Hlen.
  pose proof (@sock_after_init l Ho) as H0. rewrite Hstr in H0.
  pose proof (min_temp_size n (k := 0) ltac:(lia)) as Hmin.
  rewrite Nat.add_0_r in Hmin.
  destruct (@utility_read_enough 2 l (l, []) _ _ H0) as (l1 & E1 & H1);
    [cbn [length]; lia|].
  cbn [firstn skipn nth snd] in *.
  destruct (@utility_read_enough (Byte.to_nat n) l (l1, []) _ _ H1)
    as (l2 & E2 & H2); [rewrite length_app; lia|].
  rewrite skipn_app_exact in H2 by auto. cbn [snd] in *.
  destruct (@utility_write_ok
              [[constant.SOCKS5_VERSION; constant.AUTH_NO_AUTH]]
              l (l2, []) _ _ H2) as (l3 & E3 & H3); [exact Hroom|].
  cbn [snd app concat] in *.
  destruct (@utility_read_enough 4 l (l3, []) _ _ H3) as (l4 & E4 & H4);
    [cbn [length]; lia|].
  cbn [firstn skipn nth snd] in *.
  destruct H4 as (_ & Hs4 & Hsent4 & _).
  split.
  - intros Hcmd.
    unfold utility.do_local_socks5, utility.do_local_socks5_try, bind.
    rewrite E1. cbn [nth]. rewrite Hmin, E2, E3, E4. cbn [nth].
    rewrite (byte_eqb_neq Hcmd). cbn [negb].
    unfold utility.throw. eauto.
  - intros -> H4' H6' H3'.
    unfold utility.do_local_socks5, utility.do_local_socks5_try, bind.
    rewrite E1. cbn [nth]. rewrite Hmin, E2, E3, E4. cbn [nth].
    change (Byte.eqb constant.CONN_TCP constant.CONN_TCP) with true.
    cbn [negb].
    unfold utility.push_back at 1. cbn [fst snd app].
    rewrite (byte_eqb_neq H4'), (byte_eqb_neq H6'), (byte_eqb_neq H3').
    unfold utility.throw. eauto.
Qed.

Lemma utility_refusals_witness :
  (exists l',
     utility.do_local_socks5
       (peer_sends [[Byte.x05; Byte.x01; Byte.x00];
                    [Byte.x05; Byte.x02; Byte.x00; Byte.x01]])
     = (l', Some cmd_not_supported, [])
     /\ sent l' = [] ++ [Byte.x05; Byte.x00]
     /\ stream_of l' = [])
  /\ (exists l',
        utility.do_local_socks5
          (peer_sends [[Byte.x05; Byte.x01; Byte.x00];
                       [Byte.x05; Byte.x01; Byte.x00; Byte.x05]])
        = (l', Some address_not_supported, [Byte.x05])
        /\ sent l' = [] ++ [Byte.x05; Byte.x00]
        /\ stream_of l' = []).
Proof.
  split.
  - refine (proj1 (@utility_refusals
             (peer_sends [[Byte.x05; Byte.x01; Byte.x00];
                          [Byte.x05; Byte.x02; Byte.x00; Byte.x01]])
             Byte.x05 Byte.x01 [Byte.x00] Byte.x05 Byte.x02 Byte.x00
             Byte.x01 [] eq_refl I eq_refl eq_refl) _).
    discriminate.
  - refine (proj2 (@utility_refusals
             (peer_sends [[Byte.x05; Byte.x01; Byte.x00];
                          [Byte.x05; Byte.x01; Byte.x00; Byte.x05]])
             Byte.x05 Byte.x01 [Byte.x00] Byte.x05 Byte.x01 Byte.x00
             Byte.x05 [] eq_refl I eq_refl eq_refl) eq_refl _ _ _);
      discriminate.
Defined.

Lemma async_write_done bufs s s' :
  async_write bufs s = (s', None) ->
  sent s' = sent s ++ concat bufs /\ is_open s' = true.
Proof.
  unfold async_write. destruct (is_open s); cbn [negb]; [|discriminate].
  destruct (out_room s) as [k|];
    [destruct (length (concat bufs) <=? k)|];
    intros E; inversion E; subst; cbn; auto.
Qed.

Lemma utility_read_done n st st' d :
  utility.read n st = (st', Ok d) ->
  length d = n /\ snd st' = snd st /\ sent (fst st') = sent (fst st).
Proof.
  unfold utility.read.
  destruct (async_read n (fst st)) as [[l d'] [e|]] eqn:R; [discriminate|].
  apply async_read_ok_inv in R.
  destruct R as (_ & -> & Hle & _ & _ & Hsent & _).
  intros E; inversion E; subst. cbn. rewrite length_firstn.
  repeat split; auto. lia.
Qed.

Lemma utility_write_done bufs st st' u :
  utility.write bufs st = (st', Ok u) ->
  snd st' = snd st /\ sent (fst st') = sent (fst st) ++ concat bufs.
Proof.
  unfold utility.write.
  destruct (async_write bufs (fst st)) as [l [e|]] eqn:W; [discriminate|].
  apply async_write_done in W. destruct W as [Hs _].
  intros E; inversion E; subst. cbn. auto.
Qed.

Lemma do_local_socks5_try_done l l' res u :
  utility.do_local_socks5_try (l, []) = ((l', res), Ok u) ->
  exists atyp payload,
    res = atyp :: payload
    /\ wire_address atyp payload
    /\ sent l' = sent l ++ [Byte.x05; Byte.x00] ++ reply.
Proof.
  unfold utility.do_local_socks5_try, bind.
  destruct (utility.read 2 (l, [])) as [st1 [a1|e]] eqn:R1; [|discriminate].
  apply utility_read_done in R1. destruct R1 as (_ & V1 & S1).
  destruct (utility.read _ st1) as [st2 [a2|e]] eqn:R2; [|discriminate].
  apply utility_read_done in R2. destruct R2 as (_ & V2 & S2).
  destruct (utility.write _ st2) as [st3 [u3|e]] eqn:W3; [|discriminate].
  apply utility_write_done in W3. destruct W3 as (V3 & S3).
  destruct (utility.read 4 st3) as [st4 [a4|e]] eqn:R4; [|discriminate].
  apply utility_read_done in R4. destruct R4 as (_ & V4 & S4).
  assert (V : snd st4 = []) by (cbn in *; congruence).
  assert (S : sent (fst st4) = sent l ++ [Byte.x05; Byte.x00]).
  { rewrite S4, S3, S2, S1. reflexivity. }
  clear V1 V2 V3 V4 S1 S2 S3 S4.
  destruct (negb _); [unfold utility.throw; discriminate|].
  unfold utility.push_back at 1.
  set (atyp := nth 3 a4 Byte.x00).
  set (st5 := (fst st4, snd st4 ++ [atyp])).
  assert (V5 : snd st5 = [atyp]) by (subst st5; cbn; now rewrite V).
  assert (S5 : sent (fst st5) = sent l ++ [Byte.x05; Byte.x00])
    by (subst st5; exact S).
  clearbody st5. clear V S.
  assert (Hfin : forall st6 payload,
            snd st6 = atyp :: payload ->
            wire_address atyp payload ->
            sent (fst st6) = sent l ++ [Byte.x05; Byte.x00] ->
            utility.write [reply] st6 = (l', res, Ok u) ->
            exists atyp' payload',
              res = atyp' :: payload'
              /\ wire_address atyp' payload'
              /\ sent l' = sent l ++ [Byte.x05; Byte.x00] ++ reply).
  { intros st6 payload V6 Hw S6 W.
    apply utility_write_done in W. cbn [fst snd concat] in W.
    destruct W as (V7 & S7). rewrite app_nil_r in S7.
    exists atyp, payload. rewrite V7, V6, S7, S6, <- app_assoc. auto. }
  destruct (Byte.eqb atyp constant.ADDR_IPV4) eqn:E4.
  { apply Byte.byte_dec_bl in E4.
    destruct (utility.read _ st5) as [st6 [temp|e]] eqn:R6; [|discriminate].
    apply utility_read_done in R6. destruct R6 as (L6 & V6 & S6).
    unfold utility.push_back at 1.
    change (Nat.min (32 / 8 + 2) utility.temp_size) with 6 in L6.
    change (32 / 8 + 2) with 6.
    apply Hfin with (payload := temp); cbn [fst snd].
    - rewrite V6, V5, firstn_all2 by lia. reflexivity.
    - left. auto.
    - congruence. }
  destruct (Byte.eqb atyp constant.ADDR_IPV6) eqn:E6.
  { apply Byte.byte_dec_bl in E6.
    destruct (utility.read _ st5) as [st6 [temp|e]] eqn:R6; [|discriminate].
    apply utility_read_done in R6. destruct R6 as (L6 & V6 & S6).
    unfold utility.push_back at 1.
    change (Nat.min (128 / 8 + 2) utility.temp_size) with 18 in L6.
    change (128 / 8 + 2) with 18.
    apply Hfin with (payload := temp); cbn [fst snd].
    - rewrite V6, V5, firstn_all2 by lia. reflexivity.
    - right. left. auto.
    - congruence. }
  destruct (Byte.eqb atyp constant.ADDR_DOMAIN) eqn:E3.
  { apply Byte.byte_dec_bl in E3.
    destruct (utility.read 1 st5) as [st6 [len|e]] eqn:R6; [|discriminate].
    apply utility_read_done in R6. destruct R6 as (L6 & V6 & S6).
    destruct len as [|b [|? ?]]; try discriminate. cbn [nth].
    unfold utility.push_back at 1. cbn [fst snd].
    destruct (utility.read _ _) as [st7 [temp|e]] eqn:R7; [|discriminate].
    apply utility_read_done in R7. cbn [fst snd] in R7.
    destruct R7 as (L7 & V7 & S7).
    rewrite (min_temp_size b (k := 2)) in L7 by lia.
    unfold utility.push_back at 1.
    apply Hfin with (payload := b :: temp); cbn [fst snd].
    - rewrite V7, V6, V5, firstn_all2 by lia. reflexivity.
    - right. right. split; [exact E3|]. exists b, temp. auto.
    - congruence. }
  unfold utility.throw. discriminate.
Qed.

(** X3.  Whenever [async_local_socks5] returns instead of throwing, the
    vector it returns is an address type 1, 4 or 3 followed by exactly
    the octets that type calls for (six, eighteen, or a length octet and
    that many plus two), and the client has been sent exactly [5, 0]
    and the fixed reply: a short or unsupported request never comes back
    as a result. *)
Theorem async_local_socks5_result (l l' : socket) (res : list byte) :
  utility.async_local_socks5 l = (l', Ok res) ->
  exists atyp payload,
    res = atyp :: payload
    /\ wire_address atyp payload
    /\ sent l' = sent l ++ [Byte.x05; Byte.x00] ++ reply.
Proof.
  unfold utility.async_local_socks5, utility.do_local_socks5.
  destruct (utility.do_local_socks5_try (l, [])) as [[l0 r0] [u|e]] eqn:T;
    [|discriminate].
  intros E; inversion E; subst. eapply do_local_socks5_try_done; eauto.
Qed.

Lemma async_local_socks5_result_witness :
  exists atyp payload,
    [Byte.x03; Byte.x02; Byte.x61; Byte.x62; Byte.x01; Byte.xbb]
    = atyp :: payload
    /\ wire_address atyp payload.
Proof.
  destruct (@async_local_socks5_result
              (peer_sends [[Byte.x05; Byte.x01; Byte.x00];
                           [Byte.x05; Byte.x01; Byte.x00; Byte.x03;
                            Byte.x02; Byte.x61; Byte.x62; Byte.x01;
                            Byte.xbb]])
              _ _ eq_refl) as (atyp & payload & E & W & _).
  exists atyp, payload. split; assumption.
Defined.

(** ** The request parser of the session *)

(** X4.  What [do_get_proxy_addr] refuses.  A request header whose
    version octet is not 5, or whose command is not CONNECT, or whose
    address type is none of 1, 3, 4 makes it return [{false, ""}]: the
    four header octets are consumed and nothing more, no reply is written
    to the client, and nothing but the local socket is touched. *)
Theorem request_refusals (P : Platform) (s : client_session)
  (rver cmd rsv atyp : byte) (rest : list byte) :
  is_open (local s) = true ->
  stream_of (local s) = rver :: cmd :: rsv :: atyp :: rest ->
  rver <> constant.SOCKS5_VERSION
  \/ cmd <> constant.CONN_TCP
  \/ (atyp <> constant.ADDR_IPV4 /\ atyp <> constant.ADDR_IPV6
      /\ atyp <> constant.ADDR_DOMAIN) ->
  exists s',
    do_get_proxy_addr P s = (s', Ok (false, []))
    /\ sent (local s') = sent (local s)
    /\ stream_of (local s') = rest
    /\ remote s' = remote s.
Proof.
  intros Ho Hstr Hbad.
  pose proof (local_after_init s Ho) as H0. rewrite Hstr in H0.
  destruct (read_local_enough (n := 4) H0) as (s1 & E1 & H1);
    [cbn; lia|].
  cbn [firstn skipn nth] in *.
  assert (Hs1 : sent (local s1) = sent (local s)
                /\ stream_of (local s1) = rest /\ remote s1 = remote s).
  { destruct H1 as (Hstep & _ & Hs & Hsent & _).
    rewrite app_nil_r in Hsent.
    destruct (local_step_frame Hstep) as (Hr & _). auto. }
  exists s1. split; [|exact Hs1].
  unfold do_get_proxy_addr, bind. rewrite E1. cbn [nth].
  destruct (Byte.eqb rver constant.SOCKS5_VERSION) eqn:Ev; cbn [negb];
    [|reflexivity].
  destruct (Byte.eqb cmd constant.CONN_TCP) eqn:Ec; cbn [negb];
    [|reflexivity].
  apply Byte.byte_dec_bl in Ev, Ec.
  destruct Hbad as [Hb|[Hb|(H4 & H6 & H3)]]; try contradiction.
  rewrite (byte_eqb_neq H4), (byte_eqb_neq H6), (byte_eqb_neq H3).
  reflexivity.
Qed.

(** A BIND request. *)
Lemma request_refusals_witness :
  let s :=
    with_local
      (peer_sends [[Byte.x05; Byte.x02; Byte.x00; Byte.x01;
                    Byte.x7f; Byte.x00; Byte.x00; Byte.x01;
                    Byte.x00; Byte.x50]]) e2e_session in
  exists s',
    do_get_proxy_addr demo s = (s', Ok (false, []))
    /\ sent (local s') = []
    /\ stream_of (local s')
       = [Byte.x7f; Byte.x00; Byte.x00; Byte.x01; Byte.x00; Byte.x50]
    /\ remote s' = remote s.
Proof.
  refine (@request_refusals demo
            (with_local
               (peer_sends [[Byte.x05; Byte.x02; Byte.x00; Byte.x01;
                             Byte.x7f; Byte.x00; Byte.x00; Byte.x01;
                             Byte.x00; Byte.x50]]) e2e_session)
            Byte.x05 Byte.x02 Byte.x00 Byte.x01 _ eq_refl eq_refl
            (or_intror (or_introl _))).
  discriminate.
Defined.

Lemma big_to_native32_load e (a0 a1 a2 a3 : byte) :
  big_to_native32 e (load_native e [a0; a1; a2; a3])
  = (16777216 * Byte.to_N a0 + 65536 * Byte.to_N a1
     + 256 * Byte.to_N a2 + Byte.to_N a3)%N.
Proof.
  pose proof (byte_lt_256 a0) as H0. pose proof (byte_lt_256 a1) as H1.
  pose proof (byte_lt_256 a2) as H2. pose proof (byte_lt_256 a3) as H3.
  destruct e; cbn [big_to_native32 load_native load_le rev app fold_right].
  - unfold endian_reverse32. rewrite N.mul_0_r, N.add_0_r.
    set (x0 := Byte.to_N a0) in *. set (x1 := Byte.to_N a1) in *.
    set (x2 := Byte.to_N a2) in *. set (x3 := Byte.to_N a3) in *.
    change 65536%N with (256 * 256)%N at 2.
    change 16777216%N with (256 * 256 * 256)%N at 2.
    rewrite <- !N.Div0.div_div.
    destruct (split_256 (x1 + 256 * (x2 + 256 * x3)) H0) as [-> ->].
    destruct (split_256 (x2 + 256 * x3) H1) as [-> ->].
    destruct (split_256 x3 H2) as [-> ->].
    rewrite (N.mod_small x3) by assumption. lia.
  - lia.
Qed.

Lemma address_v4_to_string_octets (a0 a1 a2 a3 : byte) :
  address_v4_to_string
    (16777216 * Byte.to_N a0 + 65536 * Byte.to_N a1
     + 256 * Byte.to_N a2 + Byte.to_N a3)%N
  = to_string (Byte.to_N a0) ++ lit "." ++ to_string (Byte.to_N a1)
    ++ lit "." ++ to_string (Byte.to_N a2) ++ lit "."
    ++ to_string (Byte.to_N a3).
Proof.
  pose proof (byte_lt_256 a0) as H0. pose proof (byte_lt_256 a1) as H1.
  pose proof (byte_lt_256 a2) as H2. pose proof (byte_lt_256 a3) as H3.
  set (x0 := Byte.to_N a0) in *. set (x1 := Byte.to_N a1) in *.
  set (x2 := Byte.to_N a2) in *. set (x3 := Byte.to_N a3) in *.
  unfold address_v4_to_string.
  replace (16777216 * x0 + 65536 * x1 + 256 * x2 + x3)%N
    with (x3 + 256 * (x2 + 256 * (x1 + 256 * x0)))%N by lia.
  change 65536%N with (256 * 256)%N.
  change 16777216%N with (256 * 256 * 256)%N.
  rewrite <- !N.Div0.div_div.
  destruct (split_256 (x2 + 256 * (x1 + 256 * x0)) H3) as [-> ->].
  destruct (split_256 (x1 + 256 * x0) H2) as [-> ->].
  destruct (split_256 x0 H1) as [-> ->].
  rewrite (N.mod_small x0) by assumption. reflexivity.
Qed.

(** X5.  IPv4 requests are decoded in wire order on every host.  A
    complete CONNECT request for an IPv4 address is accepted with the
    fixed reply, and the text handed on is the four address octets in
    the order received, in dotted decimal, a colon, and the port read as
    a big-endian number, whether the host is little- or big-endian. *)
Theorem ipv4_request_decoded (P : Platform) (s : client_session)
  (rsv a0 a1 a2 a3 p0 p1 : byte) (rest : list byte) :
  is_open (local s) = true ->
  has_room (length reply) (local s) ->
  stream_of (local s)
  = constant.SOCKS5_VERSION :: constant.CONN_TCP :: rsv
    :: constant.ADDR_IPV4 :: a0 :: a1 :: a2 :: a3 :: p0 :: p1 :: rest ->
  exists s',
    do_get_proxy_addr P s
    = (s', Ok (true,
               to_string (Byte.to_N a0) ++ lit "."
               ++ to_string (Byte.to_N a1) ++ lit "."
               ++ to_string (Byte.to_N a2) ++ lit "."
               ++ to_string (Byte.to_N a3) ++ lit ":"
               ++ to_string (256 * Byte.to_N p0 + Byte.to_N p1)%N))
    /\ sent (local s') = sent (local s) ++ reply
    /\ stream_of (local s') = rest.
Proof.
  intros Ho Hroom Hstr.
  pose proof (local_after_init s Ho) as H0. rewrite Hstr in H0.
  destruct (@do_get_proxy_addr_v4 P s s rsv a0 a1 a2 a3 p0 p1 rest [] H0
              Hroom) as (s' & E & H').
  exists s'. destruct H' as (_ & _ & Hs & Hsent & _).
  split; [|auto]. rewrite E. do 3 f_equal.
  unfold addr_port_v4. cbn [firstn skipn].
  rewrite big_to_native32_load, big_to_native16_load.
  rewrite address_v4_to_string_octets. now rewrite <- !app_assoc.
Qed.

Lemma ipv4_request_decoded_witness :
  let s :=
    with_local
      (peer_sends [[Byte.x05; Byte.x01; Byte.x00; Byte.x01;
                    Byte.xc0; Byte.xa8; Byte.x01; Byte.x02;
                    Byte.x1f; Byte.x90]]) e2e_session in
  (exists s',
     do_get_proxy_addr demo s = (s', Ok (true, lit "192.168.1.2:8080"))
     /\ sent (local s') = [] ++ reply
     /\ stream_of (local s') = [])
  /\ (exists s',
        do_get_proxy_addr demo_be s
        = (s', Ok (true, lit "192.168.1.2:8080"))
        /\ sent (local s') = [] ++ reply
        /\ stream_of (local s') = []).
Proof.
  split.
  - exact (@ipv4_request_decoded demo
             (with_local
                (peer_sends [[Byte.x05; Byte.x01; Byte.x00; Byte.x01;
                              Byte.xc0; Byte.xa8; Byte.x01; Byte.x02;
                              Byte.x1f; Byte.x90]]) e2e_session)
             Byte.x00 Byte.xc0 Byte.xa8 Byte.x01 Byte.x02 Byte.x1f Byte.x90
             [] eq_refl I eq_refl).
  - exact (@ipv4_request_decoded demo_be
             (with_local
                (peer_sends [[Byte.x05; Byte.x01; Byte.x00; Byte.x01;
                              Byte.xc0; Byte.xa8; Byte.x01; Byte.x02;
                              Byte.x1f; Byte.x90]]) e2e_session)
             Byte.x00 Byte.xc0 Byte.xa8 Byte.x01 Byte.x02 Byte.x1f Byte.x90
             [] eq_refl I eq_refl).
Defined.

Lemma read_local_done n s s' d :
  read_local n s = (s', Ok d) -> sent (local s') = sent (local s).
Proof.
  unfold read_local.
  destruct (async_read n (local s)) as [[l d'] [e|]] eqn:R; [discriminate|].
  apply async_read_ok_inv in R.
  destruct R as (_ & _ & _ & _ & _ & Hsent & _).
  intros E; inversion E; subst. exact Hsent.
Qed.

Lemma write_local_done bufs s s' u :
  write_local bufs s = (s', Ok u) ->
  sent (local s') = sent (local s) ++ concat bufs.
Proof.
  unfold write_local.
  destruct (async_write bufs (local s)) as [l [e|]] eqn:W; [discriminate|].
  apply async_write_done in W. destruct W as [Hs _].
  intros E; inversion E; subst. exact Hs.
Qed.

Lemma do_socks5_auth_done s s' b :
  do_socks5_auth s = (s', Ok b) ->
  sent (local s')
  = sent (local s) ++ (if b then [Byte.x05; Byte.x00] else []).
Proof.
  unfold do_socks5_auth, bind.
  destruct (read_local 2 s) as [s1 [a1|e]] eqn:R1; [|discriminate].
  apply read_local_done in R1.
  destruct (read_local _ s1) as [s2 [a2|e]] eqn:R2; [|discriminate].
  apply read_local_done in R2.
  destruct (negb _).
  - unfold ret. intros E; inversion E; subst.
    rewrite app_nil_r. congruence.
  - destruct (write_local _ s2) as [s3 [u|e]] eqn:W; [|discriminate].
    apply write_local_done in W. cbn [concat app] in W.
    unfold ret. intros E; inversion E; subst.
    rewrite W, R2, R1. reflexivity.
Qed.

Lemma do_get_proxy_addr_done P s s' b a :
  do_get_proxy_addr P s = (s', Ok (b, a)) ->
  (b = false -> a = [])
  /\ sent (local s') = sent (local s) ++ (if b then reply else []).
Proof.
  unfold do_get_proxy_addr, bind.
  destruct (read_local 4 s) as [s1 [request|e]] eqn:R1; [|discriminate].
  apply read_local_done in R1.
  assert (Hno : ret (false, @nil byte) s1 = (s', Ok (b, a)) ->
                (b = false -> a = [])
                /\ sent (local s')
                   = sent (local s) ++ (if b then reply else [])).
  { unfold ret. intros E; inversion E; subst.
    rewrite app_nil_r. auto. }
  assert (Hyes : forall s2 text,
            sent (local s2) = sent (local s) ->
            (write_local [reply];;; ret (true, text)) s2
            = (s', Ok (b, a)) ->
            (b = false -> a = [])
            /\ sent (local s')
               = sent (local s) ++ (if b then reply else [])).
  { intros s2 text Hs2. unfold bind.
    destruct (write_local [reply] s2) as [s3 [u|e]] eqn:W; [|discriminate].
    apply write_local_done in W. cbn [concat] in W.
    rewrite app_nil_r in W.
    unfold ret. intros E; inversion E; subst.
    split; [discriminate|congruence]. }
  destruct (negb _); [exact Hno|].
  destruct (negb _); [exact Hno|].
  destruct (Byte.eqb _ constant.ADDR_IPV4).
  { destruct (read_local _ s1) as [s2 [ap_buf|e]] eqn:R2; [|discriminate].
    apply read_local_done in R2. unfold ret at 1.
    apply Hyes. congruence. }
  destruct (Byte.eqb _ constant.ADDR_IPV6).
  { destruct (read_local _ s1) as [s2 [ap_buf|e]] eqn:R2; [|discriminate].
    apply read_local_done in R2. unfold ret at 1.
    apply Hyes. congruence. }
  destruct (Byte.eqb _ constant.ADDR_DOMAIN).
  { destruct (read_local 1 s1) as [s2 [len|e]] eqn:R2; [|discriminate].
    apply read_local_done in R2.
    destruct (read_local _ s2) as [s3 [ap_buf|e]] eqn:R3; [|discriminate].
    apply read_local_done in R3. unfold ret at 1.
    apply Hyes. congruence. }
  unfold ret at 1. exact Hno.
Qed.

(** X6.  What the client has been told when [do_local_socks5] returns.
    If it returns success, the client has been sent exactly [5, 0]
    followed by the fixed reply [5, 0, 0, 1, 0, 0, 0, 0, 0, 0], whatever
    the address was.  If it returns failure, the address text is empty
    and the client has been sent either nothing or only the [5, 0]: a
    refused request gets no SOCKS5 error reply.  Either way nothing but
    the local socket has changed. *)
Theorem front_end_replies (P : Platform) (s s' : client_session)
  (b : bool) (a : list byte) :
  do_local_socks5 P s = (s', Ok (b, a)) ->
  local_step s s'
  /\ (b = true ->
      sent (local s') = sent (local s) ++ [Byte.x05; Byte.x00] ++ reply)
  /\ (b = false ->
      a = []
      /\ (sent (local s') = sent (local s)
          \/ sent (local s') = sent (local s) ++ [Byte.x05; Byte.x00])).
Proof.
  intros E. split.
  { pose proof (local_only_do_local_socks5 P s) as H. now rewrite E in H. }
  revert E. unfold do_local_socks5, bind.
  destruct (do_socks5_auth s) as [s1 [[|]|e]] eqn:A; try discriminate.
  - apply do_socks5_auth_done in A. intros G.
    apply do_get_proxy_addr_done in G. destruct G as [Ga Gs].
    split.
    + intros ->. rewrite Gs, A, <- app_assoc. reflexivity.
    + intros ->. split; [auto|]. right.
      rewrite Gs, A, app_nil_r. reflexivity.
  - apply do_socks5_auth_done in A. rewrite app_nil_r in A.
    unfold ret. intros G; inversion G; subst.
    split; [discriminate|]. intros _. auto.
Qed.

Lemma front_end_replies_witness :
  sent (local (fst (do_local_socks5 demo e2e_session)))
  = sent (local e2e_session) ++ [Byte.x05; Byte.x00] ++ reply.
Proof.
  exact (proj1 (proj2
           (@front_end_replies demo e2e_session
              (fst (do_local_socks5 demo e2e_session)) true
              (lit "127.0.0.1:80") eq_refl)) eq_refl).
Defined.

(** ** TCP segmentation does not show *)

Lemma resegmented_intro s1 s2 i1 i2 :
  resegmented s1 s2 ->
  concat i1 = concat i2 ->
  resegmented (with_local (set_inbox i1 (local s1)) s1)
              (with_local (set_inbox i2 (local s2)) s2).
Proof.
  intros (segs & -> & Hs) Hc. exists i2. unfold stream_of. cbn.
  split; [|now rewrite Hc]. destruct s1; reflexivity.
Qed.

Lemma segmentation_blind_ret {A : Type} (a : A) :
  segmentation_blind (ret a).
Proof. intros s1 s2 H. cbn. auto. Qed.

Lemma segmentation_blind_bind {A B : Type} (m : M A) (k : A -> M B) :
  segmentation_blind m ->
  (forall a, segmentation_blind (k a)) ->
  segmentation_blind (bind m k).
Proof.
  intros Hm Hk s1 s2 H. unfold bind. destruct (Hm s1 s2 H) as [Hr Hs].
  destruct (m s1) as [s1' [a|e]], (m s2) as [s2' [a'|e']];
    cbn [fst snd] in *; try discriminate Hr.
  - inversion Hr; subst. apply Hk, Hs.
  - inversion Hr; subst. split; [reflexivity|assumption].
Qed.

Lemma segmentation_blind_read_local n : segmentation_blind (read_local n).
Proof.
  intros s1 s2 H. pose proof H as (segs & -> & Hs).
  unfold stream_of in Hs.
  unfold read_local, async_read. cbn [local with_local is_open set_inbox
    inbox in_end].
  destruct (is_open (local s1)) eqn:Ho; cbn [negb].
  - destruct (read_until_stream n (inbox (local s1))) as [E1 C1].
    destruct (read_until_stream n segs) as [E2 C2].
    rewrite E1, E2, Hs. cbn [fst snd]. split; [reflexivity|].
    apply resegmented_intro with (i1 := snd (fst (read_until n (inbox (local s1)))))
      (i2 := snd (fst (read_until n segs))) in H; [|now rewrite C1, C2, Hs].
    exact H.
  - cbn [fst snd]. split; [reflexivity|].
    exists segs. cbn. unfold stream_of.
    split; [destruct s1 as [[] ? ? ? ? ? ? ? ? ?]; reflexivity|].
    destruct s1 as [[] ? ? ? ? ? ? ? ? ?]; exact Hs.
Qed.

Lemma segmentation_blind_write_local bufs :
  segmentation_blind (write_local bufs).
Proof.
  intros s1 s2 H. pose proof H as (segs & -> & Hs).
  unfold stream_of in Hs.
  unfold write_local, async_write. cbn [local with_local is_open set_inbox
    inbox in_end out_room out_err sent wcalls].
  destruct (is_open (local s1)) eqn:Ho; cbn [negb].
  - destruct (out_room (local s1)) as [k|];
      [destruct (length (concat bufs) <=? k)|];
      cbn [fst snd]; (split; [reflexivity|]);
      exists segs; unfold stream_of; cbn; (split; [|exact Hs]);
      destruct s1; reflexivity.
  - cbn [fst snd]. split; [reflexivity|].
    exists segs. cbn. unfold stream_of.
    split; [destruct s1 as [[] ? ? ? ? ? ? ? ? ?]; reflexivity|].
    destruct s1 as [[] ? ? ? ? ? ? ? ? ?]; exact Hs.
Qed.

Ltac segmentation_blind_tac :=
  repeat first
    [ progress intros
    | apply segmentation_blind_bind
    | apply segmentation_blind_ret
    | apply segmentation_blind_read_local
    | apply segmentation_blind_write_local
    | match goal with
      | |- segmentation_blind (if ?b then _ else _) => destruct b
      | |- segmentation_blind (match ?o with Some _ => _ | None => _ end) =>
          destruct o
      end ].

Lemma segmentation_blind_do_local_socks5 P :
  segmentation_blind (do_local_socks5 P).
Proof.
  unfold do_local_socks5, do_socks5_auth, do_get_proxy_addr.
  segmentation_blind_tac.
Qed.

Lemma segmentation_blind_connect_remote : segmentation_blind connect_remote.
Proof.
  intros s1 s2 (segs & -> & Hs). unfold connect_remote. cbn.
  destruct (connect_outcome s1); cbn [fst snd];
    (split; [reflexivity|]); exists segs; unfold stream_of in *; cbn;
    (split; [reflexivity|exact Hs]).
Qed.

Lemma segmentation_blind_send_handshake P addr_port :
  segmentation_blind (send_handshake P addr_port).
Proof.
  intros s1 s2 (segs & -> & Hs). rewrite !send_handshake_unfold.
  unfold write_remote, tunnel_frame, encrypted_addr, fresh_iv, keyed. cbn.
  destruct (async_write _ (remote s1)) as [r [e|]]; cbn [fst snd];
    (split; [reflexivity|]); exists segs; unfold stream_of in *; cbn;
    (split; [reflexivity|exact Hs]).
Qed.

Lemma segmentation_blind_start_try P : segmentation_blind (start_try P).
Proof.
  unfold start_try. apply segmentation_blind_bind.
  - apply segmentation_blind_do_local_socks5.
  - intros [success addr_port]. destruct success; cbn [negb].
    + apply segmentation_blind_bind;
        [apply segmentation_blind_connect_remote|intros _].
      apply segmentation_blind_bind;
        [apply segmentation_blind_send_handshake|intros _].
      apply segmentation_blind_ret.
    + apply segmentation_blind_ret.
Qed.

Lemma resegmented_fields s1 s2 :
  resegmented s1 s2 ->
  stream_of (local s2) = stream_of (local s1)
  /\ sent (local s2) = sent (local s1)
  /\ is_open (local s2) = is_open (local s1)
  /\ remote s2 = remote s1
  /\ encrypt s2 = encrypt s1 /\ decrypt s2 = decrypt s1
  /\ iv s2 = iv s1
  /\ connects s2 = connects s1 /\ spawned s2 = spawned s1.
Proof.
  intros (segs & -> & Hs). unfold stream_of in *. cbn. auto 10.
Qed.

(** X7.  How the client's octets are cut into TCP segments makes no
    difference.  Two sessions that differ only in the segmentation of
    the same octet stream on the local socket get the same result from
    [do_local_socks5] (same success flag and address text, or the same
    error), and after [start] they agree on everything but that
    segmentation: the same replies sent to the client, the same remote
    socket state (connect, handshake frame), the same cipher states and
    the same coroutines spawned. *)
Theorem segmentation_does_not_show (P : Platform) (s1 s2 : client_session) :
  resegmented s1 s2 ->
  snd (do_local_socks5 P s1) = snd (do_local_socks5 P s2)
  /\ stream_of (local (start P s2)) = stream_of (local (start P s1))
  /\ sent (local (start P s2)) = sent (local (start P s1))
  /\ remote (start P s2) = remote (start P s1)
  /\ encrypt (start P s2) = encrypt (start P s1)
  /\ decrypt (start P s2) = decrypt (start P s1)
  /\ spawned (start P s2) = spawned (start P s1).
Proof.
  intros H. split; [apply segmentation_blind_do_local_socks5, H|].
  assert (R : resegmented (start P s1) (start P s2)).
  { unfold start. destruct (segmentation_blind_start_try P H) as [Hr Hs].
    destruct (start_try P s1) as [s1' [[|]|e]],
             (start_try P s2) as [s2' [[|]|e']];
      cbn [fst snd] in *; try discriminate Hr; try exact Hs.
    destruct Hs as (segs & -> & Hs). exists segs.
    unfold stream_of in *. cbn. split; [reflexivity|exact Hs]. }
  destruct (resegmented_fields R) as (F1 & F2 & _ & F4 & F5 & F6 & _ & _ & F9).
  auto 10.
Qed.

Lemma segmentation_does_not_show_witness :
  let one_by_one :=
    with_local (peer_sends (map (fun b => [b]) (e2e_greeting ++ e2e_request)))
               e2e_session in
  snd (do_local_socks5 demo e2e_session)
  = snd (do_local_socks5 demo one_by_one)
  /\ stream_of (local (start demo one_by_one))
     = stream_of (local (start demo e2e_session))
  /\ sent (local (start demo one_by_one))
     = sent (local (start demo e2e_session))
  /\ remote (start demo one_by_one) = remote (start demo e2e_session)
  /\ encrypt (start demo one_by_one) = encrypt (start demo e2e_session)
  /\ decrypt (start demo one_by_one) = decrypt (start demo e2e_session)
  /\ spawned (start demo one_by_one) = spawned (start demo e2e_session).
Proof.
  apply (@segmentation_does_not_show demo e2e_session).
  exists (map (fun b => [b]) (e2e_greeting ++ e2e_request)).
  split; reflexivity.
Defined.

(** ** [start]: what happens after the front end *)

Lemma opened_unconnected_keeps r :
  is_open (opened_unconnected r) = true
  /\ sent (opened_unconnected r) = sent r
  /\ wcalls (opened_unconnected r) = wcalls r.
Proof.
  unfold opened_unconnected. destruct (is_open r) eqn:Ho; cbn; auto.
Qed.

Lemma start_connect_fails P s s1 addr_port ec :
  do_local_socks5 P s = (s1, Ok (true, addr_port)) ->
  connect_outcome s = Some ec ->
  start P s
  = with_remote (opened_unconnected (remote s))
                (with_connects (S (connects s)) s1)
  /\ local_step s s1.
Proof.
  intros E Hc.
  pose proof (local_only_do_local_socks5 P s) as Hs.
  rewrite E in Hs. cbn [fst] in Hs. split; [|exact Hs].
  destruct (local_step_frame Hs)
    as (F1 & F2 & F3 & F4 & F5 & F6 & F7 & F8 & F9).
  unfold start, start_try, bind. rewrite E. cbn [negb].
  unfold connect_remote. rewrite F7, Hc, F8, F1. reflexivity.
Qed.

(** X8.  A connect that fails ends the session there.  When the front
    end has succeeded and [remote.async_connect] throws, [start] has
    made that one connect attempt and nothing else: no IV has been
    drawn, neither cipher has been keyed, nothing has been written to
    the remote socket and no coroutine is spawned.  The remote socket is
    as [async_connect] left it, for the handler of [start] closes
    nothing: open, although it has no peer. *)
Theorem connect_failure_aborts (P : Platform) (s s1 : client_session)
  (addr_port : list byte) (ec : error_code) :
  do_local_socks5 P s = (s1, Ok (true, addr_port)) ->
  connect_outcome s = Some ec ->
  start P s
  = with_remote (opened_unconnected (remote s))
                (with_connects (S (connects s)) s1)
  /\ is_open (remote (start P s)) = true
  /\ sent (remote (start P s)) = sent (remote s)
  /\ wcalls (remote (start P s)) = wcalls (remote s)
  /\ connects (start P s) = S (connects s)
  /\ iv (start P s) = iv s
  /\ encrypt (start P s) = encrypt s /\ decrypt (start P s) = decrypt s
  /\ spawned (start P s) = spawned s.
Proof.
  intros E Hc. destruct (start_connect_fails P s E Hc) as [Hstart Hs].
  destruct (local_step_frame Hs)
    as (F1 & F2 & F3 & F4 & F5 & F6 & F7 & F8 & F9).
  destruct (opened_unconnected_keeps (remote s)) as (O1 & O2 & O3).
  rewrite Hstart. cbn. auto 12.
Qed.

(** A relay that refuses the connection: the socket that was not open
    when the session began is open when [start] returns. *)
Lemma connect_failure_aborts_witness :
  let s :=
    new_session (peer_sends [e2e_greeting; e2e_request])
                (mk_socket false [] eof None broken_pipe [] [])
                [] (fun _ => Byte.x00) (Some connection_refused) in
  is_open (remote s) = false
  /\ is_open (remote (start demo s)) = true
  /\ sent (remote (start demo s)) = sent (remote s)
  /\ wcalls (remote (start demo s)) = wcalls (remote s)
  /\ connects (start demo s) = 1
  /\ iv (start demo s) = iv s
  /\ encrypt (start demo s) = unkeyed /\ decrypt (start demo s) = unkeyed
  /\ spawned (start demo s) = [].
Proof.
  exact (conj eq_refl
          (proj2 (@connect_failure_aborts demo
           (new_session (peer_sends [e2e_greeting; e2e_request])
                        (mk_socket false [] eof None broken_pipe [] [])
                        [] (fun _ => Byte.x00)
                        (Some connection_refused))
           (fst (do_local_socks5 demo
              (new_session (peer_sends [e2e_greeting; e2e_request])
                           (mk_socket false [] eof None broken_pipe [] [])
                           [] (fun _ => Byte.x00)
                           (Some connection_refused))))
           (lit "127.0.0.1:80") connection_refused eq_refl eq_refl))).
Defined.

Lemma write_remote_done bufs s s' u :
  write_remote bufs s = (s', Ok u) ->
  sent (remote s') = sent (remote s) ++ concat bufs
  /\ spawned s' = spawned s.
Proof.
  unfold write_remote.
  destruct (async_write bufs (remote s)) as [r [e|]] eqn:W; [discriminate|].
  apply async_write_done in W. destruct W as [Hs _].
  intros E; inversion E; subst. cbn. auto.
Qed.

(** X9.  Forwarding starts only behind a complete handshake frame.  If
    [start] spawns anything, then the front end had succeeded, the
    connect had succeeded, exactly the two forwarding coroutines were
    spawned (local-to-remote first), and the remote socket has by then
    accepted the whole frame: two octets of size, the IV, and the
    encrypted address, in that order and with nothing after them. *)
Theorem forwarding_needs_full_frame (P : Platform) (s : client_session) :
  spawned (start P s) <> spawned s ->
  exists s1 addr_port size,
    do_local_socks5 P s = (s1, Ok (true, addr_port))
    /\ connect_outcome s = None
    /\ spawned (start P s)
       = spawned s ++ [local_to_remote; remote_to_local]
    /\ length size = 2
    /\ sent (remote (start P s))
       = sent (remote s) ++ size ++ iv (start P s)
         ++ xor_stream (keystream P (key s) (iv (start P s))) 0 addr_port.
Proof.
  intros Hsp.
  pose proof (local_only_do_local_socks5 P s) as Hs.
  destruct (do_local_socks5 P s) as [s1 [[success addr_port]|e]] eqn:E;
    cbn [fst] in Hs;
    destruct (local_step_frame Hs)
      as (F1 & F2 & F3 & F4 & F5 & F6 & F7 & F8 & F9).
  2: { exfalso. apply Hsp. unfold start, start_try, bind. rewrite E.
       exact F9. }
  destruct success.
  2: { exfalso. apply Hsp. unfold start, start_try, bind. rewrite E.
       exact F9. }
  destruct (connect_outcome s) as [ec|] eqn:Hc.
  { exfalso. apply Hsp.
    destruct (start_connect_fails P s E Hc) as [G _].
    rewrite G. cbn. exact F9. }
  exists s1, addr_port.
  assert (Hstart :
    start P s
    = match send_handshake P addr_port (connected s1) with
      | (s3, Ok _) =>
          with_spawned (spawned s3 ++ [local_to_remote; remote_to_local]) s3
      | (s3, Err _) => s3
      end).
  { unfold start, start_try, bind. rewrite E. cbn [negb].
    unfold connect_remote. rewrite F7. fold (connected s1).
    destruct (send_handshake P addr_port (connected s1)) as [s3 [u|e]];
      reflexivity. }
  rewrite Hstart in *. rewrite send_handshake_unfold in *.
  destruct (write_remote _ (keyed addr_port (connected s1)))
    as [s3 [u|e]] eqn:W.
  2: { exfalso. apply Hsp.
       unfold write_remote in W.
       destruct (async_write _ _) as [r [e'|]]; inversion W; subst.
       cbn. exact F9. }
  pose proof W as W'. apply write_remote_done in W'.
  destruct W' as [Wsent Wsp]. cbn [keyed spawned connected with_remote
    with_connects remote sent set_open] in Wsent, Wsp.
  assert (Hiv3 : iv s3 = fresh_iv (connected s1)).
  { unfold write_remote in W.
    destruct (async_write _ _) as [r [e'|]]; inversion W; subst.
    reflexivity. }
  exists (store_native16 (host_endian P)
            (to_uint16 (length (fresh_iv (connected s1))
                        + length (encrypted_addr P addr_port
                                    (connected s1))))).
  repeat split; auto using store_native16_length.
  - cbn [with_spawned spawned]. rewrite Wsp, F9. reflexivity.
  - cbn [with_spawned remote iv]. rewrite Wsent, Hiv3, F1.
    unfold tunnel_frame, encrypted_addr. cbn [concat].
    rewrite app_nil_r. cbn [connected key with_remote with_connects].
    rewrite F2. reflexivity.
Qed.

Lemma forwarding_needs_full_frame_witness :
  exists s1 addr_port size,
    do_local_socks5 demo e2e_session = (s1, Ok (true, addr_port))
    /\ connect_outcome e2e_session = None
    /\ spawned (start demo e2e_session)
       = spawned e2e_session ++ [local_to_remote; remote_to_local]
    /\ length size = 2
    /\ sent (remote (start demo e2e_session))
       = sent (remote e2e_session) ++ size ++ iv (start demo e2e_session)
         ++ xor_stream
              (keystream demo (key e2e_session)
                 (iv (start demo e2e_session))) 0 addr_port.
Proof.
  apply (@forwarding_needs_full_frame demo e2e_session).
  vm_compute. discriminate.
Defined.

(** X10.  [send_handshake] on a remote socket that is not open throws
    [bad_descriptor] and writes nothing; by then the IV has been drawn,
    both ciphers are keyed with it, and the send cipher has already been
    moved past the address. *)
Theorem send_handshake_unconnected (P : Platform) (s : client_session)
  (addr_port : list byte) :
  is_open (remote s) = false ->
  exists s',
    send_handshake P addr_port s = (s', Err bad_descriptor)
    /\ remote s' = remote s
    /\ iv s' = fresh_iv s
    /\ encrypt s' = mk_cipher (key s) (fresh_iv s) (length addr_port)
    /\ decrypt s' = mk_cipher (key s) (fresh_iv s) 0.
Proof.
  intros Hc. rewrite send_handshake_unfold.
  unfold write_remote, async_write. cbn [keyed remote].
  rewrite Hc. cbn [negb]. eexists. split; [reflexivity|].
  cbn. destruct s; cbn. auto.
Qed.

Lemma send_handshake_unconnected_witness :
  exists s',
    send_handshake demo (lit "127.0.0.1:80") e2e_session
    = (s', Err bad_descriptor)
    /\ remote s' = remote e2e_session
    /\ iv s' = fresh_iv e2e_session
    /\ encrypt s' = mk_cipher (key e2e_session) (fresh_iv e2e_session) 12
    /\ decrypt s' = mk_cipher (key e2e_session) (fresh_iv e2e_session) 0.
Proof.
  exact (@send_handshake_unconnected demo e2e_session (lit "127.0.0.1:80")
           eq_refl).
Defined.

(** ** Both directions on one keystream *)

Lemma xor_byte_involutive (a k : byte) : xor_byte (xor_byte a k) k = a.
Proof.
  unfold xor_byte.
  destruct (Byte.to_bits a)
    as (a0 & a1 & a2 & a3 & a4 & a5 & a6 & a7) eqn:Ea.
  destruct (Byte.to_bits k)
    as (k0 & k1 & k2 & k3 & k4 & k5 & k6 & k7) eqn:Ek.
  rewrite Byte.to_bits_of_bits.
  rewrite !xorb_assoc, !xorb_nilpotent, !xorb_false_r.
  rewrite <- Ea. apply Byte.of_bits_to_bits.
Qed.

Lemma xor_stream_involutive ks pos data :
  xor_stream ks pos (xor_stream ks pos data) = data.
Proof.
  revert pos; induction data as [|b rest IH]; intros pos; cbn; [reflexivity|].
  now rewrite xor_byte_involutive, IH.
Qed.

(** X11.  The two directions share one keystream.  [send_handshake]
    keys [encrypt] and [decrypt] with the same key and the same IV, so
    after a successful [start] the receive cipher stands at position 0
    of the very keystream whose first [len(addr_port)] positions
    encrypted the address: [ProcessString] on the receive cipher undoes
    what a send cipher at position 0 does to any octets, and applied to
    the encrypted address of the handshake frame it gives back the clear
    "host:port" and arrives where the send cipher stands. *)
Theorem directions_share_keystream (P : Platform) (s s1 : client_session)
  (addr_port : list byte) :
  do_local_socks5 P s = (s1, Ok (true, addr_port)) ->
  connect_outcome s = None ->
  let s' := start P s in
  let ks := keystream P (key s) (iv s') in
  decrypt s' = mk_cipher (key s) (iv s') 0
  /\ ckey (encrypt s') = ckey (decrypt s')
  /\ civ (encrypt s') = civ (decrypt s')
  /\ xor_stream ks 0 (xor_stream ks 0 addr_port) = addr_port
  /\ ProcessString P (decrypt s') (xor_stream ks 0 addr_port)
     = (encrypt s', addr_port)
  /\ forall buf,
       snd (ProcessString P (decrypt s')
              (snd (ProcessString P (mk_cipher (key s) (iv s') 0) buf)))
       = buf.
Proof.
  intros E Hc s' ks.
  destruct (start_after_handshake P s E Hc)
    as (Hiv & Henc & Hdec & _).
  fold s' in Hiv, Henc, Hdec.
  assert (Hks : ks = keystream P (key s)
                       (map (entropy s) (seq 0 (length (iv s)))))
    by (subst ks; now rewrite Hiv).
  split; [now rewrite Hdec, Hiv|].
  split; [now rewrite Henc, Hdec|].
  split; [now rewrite Henc, Hdec|].
  split; [apply xor_stream_involutive|].
  split.
  - rewrite Hdec, Henc. unfold ProcessString. cbn [ckey civ cpos].
    rewrite <- Hks, xor_stream_involutive, xor_stream_length.
    reflexivity.
  - intros buf. rewrite Hdec, Hiv. unfold ProcessString.
    cbn [ckey civ cpos snd]. apply xor_stream_involutive.
Qed.

Lemma directions_share_keystream_witness :
  let s := e2e_session_answered in
  let s' := start demo s in
  let ks := keystream demo (key s) (iv s') in
  decrypt s' = mk_cipher (key s) (iv s') 0
  /\ ProcessString demo (decrypt s') (xor_stream ks 0 (lit "127.0.0.1:80"))
     = (encrypt s', lit "127.0.0.1:80").
Proof.
  assert (E : do_local_socks5 demo e2e_session_answered
              = (fst (do_local_socks5 demo e2e_session_answered),
                 Ok (true, lit "127.0.0.1:80")))
    by (vm_compute; reflexivity).
  pose proof (@directions_share_keystream demo e2e_session_answered _ _ E
                eq_refl) as (H1 & _ & _ & _ & H5 & _).
  exact (conj H1 H5).
Defined.

(** ** What the session's coroutines forward *)

(** X12.  The remote-to-local coroutine loses the relay's answer.  On
    an open remote socket, whatever the relay sends before its stream
    ends, [do_forward_remote_to_local] reads all of it, decrypts and
    writes none, and closes both sockets: the client receives nothing of
    the relay's answer. *)
Theorem reverse_reads_to_the_end (P : Platform) (s : client_session)
  (fuel : nat) :
  is_open (remote s) = true ->
  exists s',
    do_forward_remote_to_local P (S fuel) s = Some s'
    /\ stream_of (remote s') = []
    /\ sent (local s') = sent (local s)
    /\ wcalls (local s') = wcalls (local s)
    /\ decrypt s' = decrypt s
    /\ is_open (local s') = false /\ is_open (remote s') = false.
Proof.
  intros Ho. rewrite do_forward_remote_to_local_unfold.
  rewrite (async_read_to_error_open _ Ho).
  eexists. split; [reflexivity|]. cbn. auto 10.
Qed.

Lemma reverse_reads_to_the_end_witness :
  let s :=
    with_remote (peer_sends [[Byte.x4f]; [Byte.x4b]]) e2e_session in
  exists s',
    do_forward_remote_to_local demo 1 s = Some s'
    /\ stream_of (remote s') = []
    /\ sent (local s') = sent (local s)
    /\ wcalls (local s') = wcalls (local s)
    /\ decrypt s' = decrypt s
    /\ is_open (local s') = false /\ is_open (remote s') = false.
Proof.
  exact (@reverse_reads_to_the_end demo
           (with_remote (peer_sends [[Byte.x4f]; [Byte.x4b]]) e2e_session)
           0 eq_refl).
Defined.

(** ** [pair] as a relay *)

Lemma async_read_some_cases n s :
  is_open s = true ->
  0 < n ->
  (exists data s',
     async_read_some n s = (s', Ok data)
     /\ 0 < length data <= n
     /\ stream_of s = data ++ stream_of s'
     /\ is_open s' = true /\ in_end s' = in_end s)
  \/ (exists s',
        async_read_some n s = (s', Err (in_end s))
        /\ stream_of s = [] /\ stream_of s' = []
        /\ is_open s' = true).
Proof.
  intros Ho Hn. unfold async_read_some, stream_of. rewrite Ho. cbn [negb].
  destruct n; [lia|].
  destruct (next_segment (S n) (inbox s)) as [[d rest]|] eqn:E.
  - left. exists d. eexists. split; [reflexivity|].
    destruct (@next_segment_some _ _ _ _ Hn E). cbn. auto.
  - right. eexists. split; [reflexivity|].
    apply next_segment_none in E. cbn. auto.
Qed.

(** X14.  [pair] with a stream cipher as its transform relays the whole
    stream under one keystream.  With a buffer that is not empty, open
    sockets and a sink that accepts everything, [pair] run with
    [ProcessString] on a cipher object returns the source's end-of-stream
    error after the sink has received every octet of the source stream,
    xored with the keystream from where the cipher stood, whatever the
    size of the buffer and however the stream was cut into segments. *)
Theorem pair_relays_cipher_stream (P : Platform) (fuel : nat) :
  forall st : utility.pair_state cipher,
    0 < length (utility.buf st) ->
    is_open (utility.src st) = true ->
    is_open (utility.dst st) = true ->
    out_room (utility.dst st) = None ->
    length (stream_of (utility.src st)) < fuel ->
    exists st',
      utility.pair (ProcessString P) fuel st
      = Some (in_end (utility.src st), st')
      /\ sent (utility.dst st')
         = sent (utility.dst st)
           ++ xor_stream
                (keystream P (ckey (utility.tstate st))
                           (civ (utility.tstate st)))
                (cpos (utility.tstate st)) (stream_of (utility.src st))
      /\ cpos (utility.tstate st')
         = cpos (utility.tstate st) + length (stream_of (utility.src st))
      /\ stream_of (utility.src st') = []
      /\ length (utility.buf st') = length (utility.buf st).
Proof.
  induction fuel as [|fuel IH]; intros st Hb Hos Hod Hroom Hf; [lia|].
  cbn [utility.pair].
  destruct (@async_read_some_cases (length (utility.buf st))
              (utility.src st) Hos Hb)
    as [(data & src' & R & Hd & Hs & Hos' & Hend)|(src' & R & Hs & Hs' & _)].
  - rewrite R.
    set (buf1 := data ++ skipn (length data) (utility.buf st)).
    assert (L1 : length buf1 = length (utility.buf st))
      by (subst buf1; rewrite length_app, length_skipn; lia).
    assert (F1 : firstn (length data) buf1 = data)
      by (subst buf1; now apply firstn_app_exact).
    rewrite F1. unfold ProcessString at 1.
    set (t := utility.tstate st) in *.
    set (out := xor_stream (keystream P (ckey t) (civ t)) (cpos t) data).
    assert (Lo : length out = length data)
      by (subst out; apply xor_stream_length).
    assert (F2 : firstn (length data)
                   (utility.in_place (length data) out buf1) = out).
    { unfold utility.in_place. rewrite (@firstn_all2 _ (length data) out)
        by lia.
      apply firstn_app_exact. lia. }
    rewrite F2.
    assert (L2 : length (utility.in_place (length data) out buf1)
                 = length (utility.buf st))
      by (rewrite in_place_length; lia).
    unfold async_write at 1. rewrite Hod, Hroom. cbn [negb concat].
    rewrite app_nil_r.
    match goal with
    | |- context [utility.pair _ fuel ?st2] =>
        destruct (IH st2) as (st' & E & G1 & G2 & G3 & G4)
    end; cbn [utility.buf utility.src utility.dst utility.tstate
              is_open out_room]; auto; try lia.
    { rewrite Hs, length_app in Hf. lia. }
    exists st'. cbn [utility.buf utility.src utility.dst utility.tstate
                     sent ckey civ cpos in_end] in *.
    rewrite E, Hend. split; [reflexivity|].
    rewrite G1, G2, G3, G4, Hs, xor_stream_app, length_app.
    rewrite <- app_assoc, L2. fold out. repeat split; auto. lia.
  - rewrite R. eexists. split; [reflexivity|].
    cbn [utility.buf utility.src utility.dst utility.tstate].
    rewrite Hs. cbn [xor_stream length]. rewrite app_nil_r, Nat.add_0_r.
    auto.
Qed.

Lemma pair_relays_cipher_stream_witness :
  let st :=
    utility.mk_pair_state (SetKeyWithIV [Byte.x01] [Byte.x02])
      (peer_sends [lit "GET"; lit " / HTTP"]) (peer_sends [])
      (repeat Byte.x00 4) in
  exists st',
    utility.pair (ProcessString demo) 11 st = Some (eof, st')
    /\ sent (utility.dst st')
       = [] ++ xor_stream (keystream demo [Byte.x01] [Byte.x02]) 0
                          (lit "GET / HTTP")
    /\ cpos (utility.tstate st') = 0 + 10
    /\ stream_of (utility.src st') = []
    /\ length (utility.buf st') = 4.
Proof.
  exact (@pair_relays_cipher_stream demo 11
           (utility.mk_pair_state (SetKeyWithIV [Byte.x01] [Byte.x02])
              (peer_sends [lit "GET"; lit " / HTTP"]) (peer_sends [])
              (repeat Byte.x00 4))
           ltac:(vm_compute; lia) eq_refl eq_refl eq_refl
           ltac:(vm_compute; lia)).
Defined.

Lemma pair_returns_witness :
  exists ec st',
    utility.pair (fun (t : unit) b => (t, rev b)) 8
      (utility.mk_pair_state tt (peer_sends [lit "abc"; lit "defg"])
                             (peer_sends []) (repeat Byte.x00 2))
    = Some (ec, st').
Proof.
  exact (@pair_returns unit (fun t b => (t, rev b)) 8
           (utility.mk_pair_state tt (peer_sends [lit "abc"; lit "defg"])
                                  (peer_sends []) (repeat Byte.x00 2))
           ltac:(vm_compute; lia) ltac:(vm_compute; lia)).
Defined.

Lemma pair_one_buffer_per_round_witness :
  let st :=
    utility.mk_pair_state tt (peer_sends [lit "abc"; lit "defg"])
                          (peer_sends []) (repeat Byte.x00 2) in
  exists ec st',
    utility.pair (fun (t : unit) b => (t, rev b)) 8 st = Some (ec, st')
    /\ length (utility.buf st') = 2
    /\ exists calls,
         wcalls (utility.dst st') = [] ++ calls
         /\ Forall (fun c => exists b, c = [b] /\ 0 < length b <= 2) calls
         /\ 7 = length (concat (concat calls))
                + length (stream_of (utility.src st')).
Proof.
  intros st.
  assert (E : exists ec st',
            utility.pair (fun (t : unit) b => (t, rev b)) 8 st
            = Some (ec, st'))
    by (do 2 eexists; vm_compute; reflexivity).
  destruct E as (ec & st' & E). exists ec, st'. split; [exact E|].
  exact (@pair_one_buffer_per_round unit (fun t b => (t, rev b)) 8
           st ec st' ltac:(vm_compute; lia) eq_refl eq_refl E).
Defined.

(** X17.  [pair] with an empty buffer never returns.  On open sockets,
    a read into no room completes at once with no octets and no error,
    the write of no octets succeeds, and the loop goes round again: no
    amount of rounds makes [pair] return, whatever the transform. *)
Theorem pair_empty_buffer_spins (T : Type)
  (transform : T -> list byte -> T * list byte) (fuel : nat) :
  forall st : utility.pair_state T,
    utility.buf st = [] ->
    is_open (utility.src st) = true ->
    is_open (utility.dst st) = true ->
    utility.pair transform fuel st = None.
Proof.
  induction fuel as [|fuel IH]; intros st Hb Hos Hod; [reflexivity|].
  cbn [utility.pair]. rewrite Hb. cbn [length].
  unfold async_read_some. rewrite Hos. cbn [negb length app skipn firstn].
  destruct (transform (utility.tstate st) []) as [t' out].
  unfold utility.in_place. cbn [firstn length skipn app].
  unfold async_write. rewrite Hod. cbn [negb concat app length].
  destruct (out_room (utility.dst st)) as [k|]; cbn [Nat.leb];
    apply IH; cbn; auto.
Qed.

Lemma pair_empty_buffer_spins_witness :
  utility.pair (ProcessString demo) 1000
    (utility.mk_pair_state unkeyed (peer_sends [lit "abc"]) (peer_sends [])
                           [])
  = None.
Proof.
  exact (@pair_empty_buffer_spins cipher (ProcessString demo) 1000
           (utility.mk_pair_state unkeyed (peer_sends [lit "abc"])
                                  (peer_sends []) [])
           eq_refl eq_refl eq_refl).
Defined.

Lemma async_read_some_error n s s' ec :
  async_read_some n s = (s', Err ec) ->
  ec = bad_descriptor \/ ec = in_end s.
Proof.
  unfold async_read_some. destruct (is_open s); cbn [negb].
  - destruct n; [discriminate|].
    destruct (next_segment _ _) as [[d r]|]; [discriminate|].
    intros E; inversion E; auto.
  - intros E; inversion E; auto.
Qed.

Lemma async_read_some_in_end n s :
  in_end (fst (async_read_some n s)) = in_end s.
Proof.
  unfold async_read_some. destruct (is_open s); cbn [negb]; [|reflexivity].
  destruct n; [reflexivity|].
  destruct (next_segment _ _) as [[d r]|]; reflexivity.
Qed.

Lemma async_write_error bufs s :
  out_err (fst (async_write bufs s)) = out_err s
  /\ forall ec, snd (async_write bufs s) = Some ec ->
                ec = bad_descriptor \/ ec = out_err s.
Proof.
  unfold async_write. destruct (is_open s); cbn [negb].
  - destruct (out_room s) as [k|];
      [destruct (length (concat bufs) <=? k)|]; cbn;
      (split; [reflexivity|]); intros ec E; inversion E; auto.
  - cbn. split; [reflexivity|]. intros ec E; inversion E; auto.
Qed.

(** X18.  The error code [pair] returns is one its sockets reported: the
    error the source's stream ends with, the error the sink's writes
    fail with, or [bad_descriptor] from a socket that is not open.  The
    transform cannot make [pair] return, and [pair] invents no code. *)
Theorem pair_error_comes_from_a_socket (T : Type)
  (transform : T -> list byte -> T * list byte) (fuel : nat) :
  forall (st st' : utility.pair_state T) (ec : error_code),
    utility.pair transform fuel st = Some (ec, st') ->
    (ec = in_end (utility.src st) \/ ec = out_err (utility.dst st)
     \/ ec = bad_descriptor)
    /\ in_end (utility.src st') = in_end (utility.src st)
    /\ out_err (utility.dst st') = out_err (utility.dst st).
Proof.
  induction fuel as [|fuel IH]; intros st st' ec; [discriminate|].
  cbn [utility.pair].
  pose proof (async_read_some_in_end (length (utility.buf st))
                (utility.src st)) as Hin.
  destruct (async_read_some _ (utility.src st)) as [src' [data|e]] eqn:R;
    cbn [fst] in Hin.
  - destruct (transform _ _) as [t' out].
    match goal with
    | |- context [async_write ?b ?d] =>
        pose proof (async_write_error b d) as [Hout Herr];
        destruct (async_write b d) as [dst' [e|]]
    end; cbn [fst snd] in *.
    + intros E; inversion E; subst. cbn.
      destruct (Herr _ eq_refl) as [->| ->]; auto.
    + intros E. apply IH in E. cbn in E.
      destruct E as (E1 & E2 & E3). rewrite Hin, Hout in *. auto.
  - intros E; inversion E; subst. cbn.
    apply async_read_some_error in R. destruct R as [->| ->]; auto.
Qed.

(** A sink that accepts three octets and then resets the connection. *)
Lemma pair_error_comes_from_a_socket_witness :
  let st :=
    utility.mk_pair_state tt (peer_sends [lit "abcdef"])
      (mk_socket true [] eof (Some 3) connection_reset [] [])
      (repeat Byte.x00 2) in
  exists st',
    utility.pair (fun (t : unit) b => (t, b)) 5 st
    = Some (connection_reset, st')
    /\ in_end (utility.src st') = eof
    /\ out_err (utility.dst st') = connection_reset.
Proof.
  intros st.
  assert (E : exists st',
            utility.pair (fun (t : unit) b => (t, b)) 5 st
            = Some (connection_reset, st'))
    by (eexists; vm_compute; reflexivity).
  destruct E as [st' E]. exists st'. split; [exact E|].
  exact (proj2 (@pair_error_comes_from_a_socket unit (fun t b => (t, b)) 5
                  st st' connection_reset E)).
Defined.

(** ** More on the greeting and the request *)

(** X19.  Method selection.  For every complete greeting, whatever its
    version octet, [do_socks5_auth] consumes exactly the two header
    octets and the announced number of methods and returns whether
    method 0x00 is among them; it writes [5, 0] when it is and nothing
    when it is not (in particular for a greeting that announces no
    method at all). *)
Theorem method_selection (s : client_session) (ver n : byte)
  (methods rest : list byte) :
  is_open (local s) = true ->
  has_room 2 (local s) ->
  stream_of (local s) = ver :: n :: methods ++ rest ->
  length methods = Byte.to_nat n ->
  let offered := existsb (Byte.eqb constant.AUTH_NO_AUTH) methods in
  exists s',
    do_socks5_auth s = (s', Ok offered)
    /\ sent (local s')
       = sent (local s) ++ (if offered then [Byte.x05; Byte.x00] else [])
    /\ stream_of (local s') = rest
    /\ remote s' = remote s.
Proof.
  intros Ho Hroom Hstr Hlen offered.
  pose proof (local_after_init s Ho) as H0. rewrite Hstr in H0.
  destruct offered eqn:Hex; subst offered.
  - destruct (@do_socks5_auth_accepts s s ver n methods rest [] H0 Hlen Hex
                Hroom) as (s' & E & H').
    exists s'. destruct H' as (Hstep & _ & Hs & Hsent & _).
    destruct (local_step_frame Hstep) as (Hr & _). auto.
  - destruct (@do_socks5_auth_rejects s s ver n methods rest [] H0 Hlen Hex)
      as (s' & E & H').
    exists s'. destruct H' as (Hstep & _ & Hs & Hsent & _).
    destruct (local_step_frame Hstep) as (Hr & _). auto.
Qed.

(** Three methods, the last of them 0x00; and no method at all. *)
Lemma method_selection_witness :
  (exists s',
     do_socks5_auth
       (with_local
          (peer_sends [[Byte.x05; Byte.x03; Byte.x02; Byte.x01; Byte.x00]])
          e2e_session)
     = (s', Ok true)
     /\ sent (local s') = [] ++ [Byte.x05; Byte.x00]
     /\ stream_of (local s') = []
     /\ remote s' = remote e2e_session)
  /\ (exists s',
        do_socks5_auth
          (with_local (peer_sends [[Byte.x05; Byte.x00]]) e2e_session)
        = (s', Ok false)
        /\ sent (local s') = [] ++ []
        /\ stream_of (local s') = []
        /\ remote s' = remote e2e_session).
Proof.
  split.
  - exact (@method_selection
             (with_local
                (peer_sends
                   [[Byte.x05; Byte.x03; Byte.x02; Byte.x01; Byte.x00]])
                e2e_session)
             Byte.x05 Byte.x03 [Byte.x02; Byte.x01; Byte.x00] []
             eq_refl I eq_refl eq_refl).
  - exact (@method_selection
             (with_local (peer_sends [[Byte.x05; Byte.x00]]) e2e_session)
             Byte.x05 Byte.x00 [] [] eq_refl I eq_refl eq_refl).
Defined.

(** X20.  A greeting cut short.  If the client's stream ends before the
    two header octets, or before as many methods as the header
    announces, [do_socks5_auth] throws the error the stream ended with
    (end of file, or the failure of the connection), nothing is written
    to the client, and [start] gives up without touching the remote
    socket or spawning anything. *)
Theorem greeting_cut_short (P : Platform) (s : client_session) :
  is_open (local s) = true ->
  length (stream_of (local s)) < 2
  \/ (exists ver n tail,
        stream_of (local s) = ver :: n :: tail
        /\ length tail < Byte.to_nat n) ->
  (exists s',
     do_socks5_auth s = (s', Err (in_end (local s)))
     /\ sent (local s') = sent (local s))
  /\ remote (start P s) = remote s
  /\ connects (start P s) = connects s
  /\ spawned (start P s) = spawned s.
Proof.
  intros Ho Hcut.
  pose proof (local_after_init s Ho) as H0.
  destruct (@do_socks5_auth_truncated s s _ [] H0 Hcut) as (s' & E & H').
  split.
  - exists s'. destruct H' as (_ & _ & _ & Hsent & _).
    rewrite app_nil_r in Hsent. auto.
  - assert (Hf : setup_ok P s = false).
    { unfold setup_ok, do_local_socks5, bind. now rewrite E. }
    rewrite (start_aborts P s Hf).
    destruct (local_step_frame (local_only_do_local_socks5 P s))
      as (Hr & _ & _ & _ & _ & _ & _ & Hc & Hsp).
    auto.
Qed.

(** Two methods announced, one delivered, then the connection is reset. *)
Lemma greeting_cut_short_witness :
  let s :=
    with_local
      (mk_socket true [[Byte.x05; Byte.x02]; [Byte.x00]] connection_reset
                 None broken_pipe [] []) e2e_session in
  (exists s',
     do_socks5_auth s = (s', Err connection_reset)
     /\ sent (local s') = sent (local s))
  /\ remote (start demo s) = remote s
  /\ connects (start demo s) = connects s
  /\ spawned (start demo s) = spawned s.
Proof.
  refine (@greeting_cut_short demo
            (with_local
               (mk_socket true [[Byte.x05; Byte.x02]; [Byte.x00]]
                          connection_reset None broken_pipe [] [])
               e2e_session)
            eq_refl (or_intror _)).
  exists Byte.x05, Byte.x02, [Byte.x00]. split; [reflexivity|].
  vm_compute. lia.
Defined.

(** X21.  Domain names are copied, not checked.  A complete CONNECT
    request for a domain name of any announced length from 0 to 255 is
    accepted with the fixed reply, and the text handed on is the name's
    octets exactly as received, whatever they are, then a colon and the
    port in decimal: an announced length of zero yields the text
    [":port"]. *)
Theorem domain_name_copied (P : Platform) (s : client_session)
  (rsv len : byte) (domain : list byte) (p0 p1 : byte) (rest : list byte) :
  is_open (local s) = true ->
  has_room (length reply) (local s) ->
  stream_of (local s)
  = constant.SOCKS5_VERSION :: constant.CONN_TCP :: rsv
    :: constant.ADDR_DOMAIN :: len :: domain ++ p0 :: p1 :: rest ->
  length domain = Byte.to_nat len ->
  exists s',
    do_get_proxy_addr P s
    = (s', Ok (true,
               domain ++ lit ":"
               ++ to_string (256 * Byte.to_N p0 + Byte.to_N p1)%N))
    /\ sent (local s') = sent (local s) ++ reply
    /\ stream_of (local s') = rest.
Proof.
  intros Ho Hroom Hstr Hlen.
  pose proof (local_after_init s Ho) as H0. rewrite Hstr in H0.
  destruct (@do_get_proxy_addr_domain P s s rsv len domain p0 p1 rest []
              H0 Hlen Hroom) as (s' & E & H').
  exists s'. destruct H' as (_ & _ & Hs & Hsent & _). auto.
Qed.

(** An empty name; and a name with a colon and a zero octet in it. *)
Lemma domain_name_copied_witness :
  (exists s',
     do_get_proxy_addr demo
       (with_local
          (peer_sends [[Byte.x05; Byte.x01; Byte.x00; Byte.x03; Byte.x00;
                        Byte.x00; Byte.x50]]) e2e_session)
     = (s', Ok (true, [] ++ lit ":" ++ to_string 80))
     /\ sent (local s') = [] ++ reply
     /\ stream_of (local s') = [])
  /\ (exists s',
        do_get_proxy_addr demo
          (with_local
             (peer_sends [[Byte.x05; Byte.x01; Byte.x00; Byte.x03; Byte.x03;
                           Byte.x61; Byte.x3a; Byte.x00;
                           Byte.x00; Byte.x50]]) e2e_session)
        = (s', Ok (true,
                   [Byte.x61; Byte.x3a; Byte.x00] ++ lit ":" ++ to_string 80))
        /\ sent (local s') = [] ++ reply
        /\ stream_of (local s') = []).
Proof.
  split.
  - exact (@domain_name_copied demo
             (with_local
                (peer_sends [[Byte.x05; Byte.x01; Byte.x00; Byte.x03;
                              Byte.x00; Byte.x00; Byte.x50]]) e2e_session)
             Byte.x00 Byte.x00 [] Byte.x00 Byte.x50 []
             eq_refl I eq_refl eq_refl).
  - exact (@domain_name_copied demo
             (with_local
                (peer_sends [[Byte.x05; Byte.x01; Byte.x00; Byte.x03;
                              Byte.x03; Byte.x61; Byte.x3a; Byte.x00;
                              Byte.x00; Byte.x50]]) e2e_session)
             Byte.x00 Byte.x03 [Byte.x61; Byte.x3a; Byte.x00]
             Byte.x00 Byte.x50 [] eq_refl I eq_refl eq_refl).
Defined.

(** X22.  A handshake write that fails.  When the front end and the
    connect have succeeded but the relay accepts only [k] octets, fewer
    than the frame has, [start] returns without spawning a coroutine and
    without closing the remote socket: it stays open, with the first [k]
    octets of the frame (size, IV, encrypted address) on the wire. *)
Theorem handshake_write_failure (P : Platform) (s s1 : client_session)
  (addr_port : list byte) (k : nat) :
  do_local_socks5 P s = (s1, Ok (true, addr_port)) ->
  connect_outcome s = None ->
  out_room (remote s) = Some k ->
  k < 2 + length (iv s) + length addr_port ->
  let iv' := map (entropy s) (seq 0 (length (iv s))) in
  let enc := xor_stream (keystream P (key s) iv') 0 addr_port in
  let size :=
    store_native16 (host_endian P) (to_uint16 (length iv' + length enc)) in
  spawned (start P s) = spawned s
  /\ is_open (remote (start P s)) = true
  /\ sent (remote (start P s))
     = sent (remote s) ++ firstn k (size ++ iv' ++ enc).
Proof.
  intros E Hc Hroom Hk iv' enc size.
  pose proof (local_only_do_local_socks5 P s) as Hs.
  rewrite E in Hs. cbn [fst] in Hs.
  destruct (local_step_frame Hs)
    as (F1 & F2 & F3 & F4 & F5 & F6 & F7 & F8 & F9).
  assert (Hfi : fresh_iv (connected s1) = iv').
  { unfold fresh_iv, connected. cbn. now rewrite F6, F3. }
  assert (Hfr : tunnel_frame P addr_port (connected s1) = [size; iv'; enc]).
  { unfold tunnel_frame, encrypted_addr. rewrite Hfi.
    cbn [connected key with_remote with_connects]. now rewrite F2. }
  assert (Hlen : length (concat [size; iv'; enc])
                 = 2 + length (iv s) + length addr_port).
  { cbn [concat]. rewrite app_nil_r, !length_app.
    subst size iv' enc.
    rewrite store_native16_length, xor_stream_length, length_map,
      length_seq. lia. }
  assert (Hstart :
    start P s
    = match send_handshake P addr_port (connected s1) with
      | (s3, Ok _) =>
          with_spawned (spawned s3 ++ [local_to_remote; remote_to_local]) s3
      | (s3, Err _) => s3
      end).
  { unfold start, start_try, bind. rewrite E. cbn [negb].
    unfold connect_remote. rewrite F7, Hc. fold (connected s1).
    destruct (send_handshake P addr_port (connected s1)) as [s3 [u|e]];
      reflexivity. }
  rewrite Hstart, send_handshake_unfold, Hfr.
  unfold write_remote, async_write.
  cbn [keyed remote connected with_remote with_connects set_open is_open
       out_room negb].
  rewrite F1, Hroom, Hlen.
  destruct (Nat.leb_spec (2 + length (iv s) + length addr_port) k);
    [lia|].
  cbn. rewrite F9, app_nil_r. auto.
Qed.

Lemma handshake_write_failure_witness :
  let s :=
    new_session (peer_sends [e2e_greeting; e2e_request])
                (mk_socket false [] eof (Some 5) connection_reset [] [])
                [] (fun i => byte_of_N (N.of_nat (i + 1))) None in
  let iv' := map (entropy s) (seq 0 (length (iv s))) in
  let enc := xor_stream (keystream demo (key s) iv') 0 (lit "127.0.0.1:80") in
  let size :=
    store_native16 (host_endian demo)
                   (to_uint16 (length iv' + length enc)) in
  spawned (start demo s) = spawned s
  /\ is_open (remote (start demo s)) = true
  /\ sent (remote (start demo s))
     = sent (remote s) ++ firstn 5 (size ++ iv' ++ enc).
Proof.
  exact (@handshake_write_failure demo
           (new_session (peer_sends [e2e_greeting; e2e_request])
              (mk_socket false [] eof (Some 5) connection_reset [] [])
              [] (fun i => byte_of_N (N.of_nat (i + 1))) None)
           (fst (do_local_socks5 demo
              (new_session (peer_sends [e2e_greeting; e2e_request])
                 (mk_socket false [] eof (Some 5) connection_reset [] [])
                 [] (fun i => byte_of_N (N.of_nat (i + 1))) None)))
           (lit "127.0.0.1:80") 5 eq_refl eq_refl eq_refl
           ltac:(vm_compute; lia)).
Defined.
